(** * Disaster Safe Map: shelter gateway (backend/index.js) and live-route
      hook (frontend/src/hooks/useLiveRoute.js)

    The development follows the two programs of the repository.

    - [JS] models the parts of the JavaScript runtime the programs rely on:
      strings ([split], [trim]), the conversion of a string to a number
      ([Number], with IEEE 754 binary64 rounding), truthiness and JSON values.
    - [Backend] embeds the Express gateway: the coordinate validator, the
      route handler with its cache, the rate limiter in front of it and the
      shelter endpoints, as state-passing functions over an explicit store.
    - [Frontend] embeds the hook: the haversine distance, the
      nearest-shelter scan and the route-request throttle.

    JavaScript strings are modelled as [string], one character per code
    unit, which covers the code units below 256.  Numbers of the gateway are
    binary64 floats ([float]); the coordinates and distances of the hook are
    real numbers; times are integers in milliseconds. *)

From Stdlib Require Import ZArith List String Ascii Bool Lia Floats.
From Stdlib Require Import Sorted Reals Lra.
From stdpp Require Import gmap strings.

Set Warnings "-inexact-float,-register-all".

Import ListNotations.
Local Open Scope string_scope.
Local Open Scope Z_scope.

(* ===================================================================== *)
(** * The JavaScript runtime                                              *)
(* ===================================================================== *)

Module JS.

(** ** Strings *)

Definition code (c : ascii) : N := N_of_ascii c.

(** WhiteSpace and LineTerminator code units (ECMA-262, 12.2 and 12.3)
    that fit in one byte: TAB, LF, VT, FF, CR, SP, NBSP. *)
Definition isWhiteSpace (c : ascii) : bool :=
  let n := code c in
  ((9 <=? n) && (n <=? 13))%N || (n =? 32)%N || (n =? 160)%N.

Fixpoint trimStart (s : string) : string :=
  match s with
  | EmptyString => EmptyString
  | String c s' => if isWhiteSpace c then trimStart s' else s
  end.

Fixpoint trimEnd (s : string) : string :=
  match s with
  | EmptyString => EmptyString
  | String c s' =>
      match trimEnd s' with
      | EmptyString => if isWhiteSpace c then EmptyString else String c EmptyString
      | r => String c r
      end
  end.

(** [String.prototype.trim] *)
Definition trim (s : string) : string := trimEnd (trimStart s).

(** [String.prototype.split] with a one-character separator: the result is
    never empty, and the empty string splits into one empty piece. *)
Fixpoint split (sep : ascii) (s : string) : list string :=
  match s with
  | EmptyString => [EmptyString]
  | String c s' =>
      if Ascii.eqb c sep then EmptyString :: split sep s'
      else match split sep s' with
           | h :: t => String c h :: t
           | [] => [String c EmptyString]
           end
  end.

(** ** Numbers: StringToNumber (ECMA-262, 7.1.4.1) *)

(** Value of a digit in a base up to 16. *)
Definition digit (base : Z) (c : ascii) : option Z :=
  let n := Z.of_N (code c) in
  let v := if (48 <=? n) && (n <=? 57) then n - 48
           else if (97 <=? n) && (n <=? 102) then n - 87
           else if (65 <=? n) && (n <=? 70) then n - 55
           else 16 in
  if v <? base then Some v else None.

(** Longest prefix of digits: accumulated value, number of digits read and
    the rest of the string. *)
Fixpoint digits (base : Z) (s : string) (acc : Z) (n : Z) : Z * Z * string :=
  match s with
  | EmptyString => (acc, n, s)
  | String c s' =>
      match digit base c with
      | Some v => digits base s' (base * acc + v) (n + 1)
      | None => (acc, n, s)
      end
  end.

(** A sign character in front of a literal. *)
Definition sign (s : string) : bool * string :=
  match s with
  | String "+" s' => (false, s')
  | String "-" s' => (true, s')
  | _ => (false, s)
  end.

(** The mathematical value of a decimal literal is [m * 10 ^ e]; the
    literal is rounded to the nearest binary64 value, ties to even. *)
Definition roundDecimal (neg : bool) (m e : Z) : spec_float :=
  match m with
  | Zpos p =>
      if 0 <=? e then binary_normalize prec emax (if neg then - (m * 10 ^ e) else m * 10 ^ e) 0 neg
      else
        let '(q, e', l) := SFdiv_core_binary prec emax m 0 (10 ^ (- e)) 0 in
        binary_round_aux prec emax neg q e' l
  | _ => S754_zero neg
  end.

(** ExponentPart (optional): [e] or [E], an optional sign, digits. *)
Definition exponentPart (s : string) : option Z :=
  match s with
  | EmptyString => Some 0
  | String c s' =>
      if Ascii.eqb c "e" || Ascii.eqb c "E" then
        let '(neg, s1) := sign s' in
        match digits 10 s1 0 0 with
        | (v, n, EmptyString) => if 0 <? n then Some (if neg then - v else v) else None
        | _ => None
        end
      else None
  end.

(** StrUnsignedDecimalLiteral, without [Infinity]:
    digits [.] digits? exp?, [.] digits exp?, digits exp?. *)
Definition unsignedDecimal (neg : bool) (s : string) : option spec_float :=
  let '(ip, ni, s1) := digits 10 s 0 0 in
  let '(m, nf, s2) :=
    match s1 with
    | String "." s1' => digits 10 s1' ip 0
    | _ => (ip, 0, s1)
    end in
  let dot := match s1 with String "." _ => true | _ => false end in
  if (0 <? ni) || (dot && (0 <? nf)) then
    match exponentPart s2 with
    | Some e => Some (roundDecimal neg m (e - nf))
    | None => None
    end
  else None.

(** NonDecimalIntegerLiteral: [0x], [0o], [0b] and digits of that base. *)
Definition nonDecimal (s : string) : option spec_float :=
  match s with
  | String "0" (String p s') =>
      let base := if Ascii.eqb p "x" || Ascii.eqb p "X" then 16
                  else if Ascii.eqb p "o" || Ascii.eqb p "O" then 8
                  else if Ascii.eqb p "b" || Ascii.eqb p "B" then 2
                  else 0 in
      if base =? 0 then None
      else match digits base s' 0 0 with
           | (v, n, EmptyString) =>
               if 0 <? n then Some (binary_normalize prec emax v 0 false) else None
           | _ => None
           end
  | _ => None
  end.

(** StringToNumber as a specification-level float: white space is
    stripped, the empty string is [+0], anything that is not a
    StrNumericLiteral is [NaN]. *)
Definition StringToNumber (str : string) : spec_float :=
  let s := trim str in
  match s with
  | EmptyString => S754_zero false
  | _ =>
      match nonDecimal s with
      | Some x => x
      | None =>
          let '(neg, s1) := sign s in
          if String.eqb s1 "Infinity" then S754_infinity neg
          else match unsignedDecimal neg s1 with
               | Some x => x
               | None => S754_nan
               end
      end
  end.

(** [Number(str)] for a string argument. *)
Definition Number (str : string) : float := SF2Prim (StringToNumber str).

(** ** Values *)

(** The values that [JSON.parse] produces and [res.json] sends.  A number
    is a binary64 float; [JSON.parse] yields an infinity for a literal out
    of range and never yields [NaN]. *)
Inductive json : Type :=
  | JNull
  | JBool (b : bool)
  | JNum (x : float)
  | JStr (s : string)
  | JArr (items : list json)
  | JObj (fields : list (string * json)).

(** ToBoolean: [null], [false], [0], [-0], [NaN] and the empty string are
    falsy, every object and array is truthy. *)
Definition truthy (v : json) : bool :=
  match v with
  | JNull => false
  | JBool b => b
  | JNum x => negb (PrimFloat.is_nan x || PrimFloat.is_zero x)
  | JStr s => negb (String.eqb s "")
  | JArr _ | JObj _ => true
  end.

(** A variable that may hold [undefined]: [None]. *)
Definition truthy_opt (v : option json) : bool :=
  match v with
  | Some x => truthy x
  | None => false
  end.

(** Own property of a parsed object; of two members with one key the later
    one wins, as in [JSON.parse]. *)
Fixpoint lookup_field (k : string) (fields : list (string * json)) : option json :=
  match fields with
  | [] => None
  | (k', v) :: rest =>
      match lookup_field k rest with
      | Some v' => Some v'
      | None => if String.eqb k k' then Some v else None
      end
  end.

(** Property read [o.k] for the keys the gateway reads ([name], [lon],
    [lat]): only an object can hold them, every other value gives
    [undefined]. *)
Definition get (o : json) (k : string) : option json :=
  match o with
  | JObj fields => lookup_field k fields
  | _ => None
  end.

(** [Number.isFinite(v)]: [false] for everything that is not a number, no
    coercion. *)
Definition isFinite (v : option json) : bool :=
  match v with
  | Some (JNum x) => PrimFloat.is_finite x
  | _ => false
  end.

End JS.

(* ===================================================================== *)
(** * backend/index.js                                                    *)
(* ===================================================================== *)

Module Backend.
Import JS.

(** ** Configuration *)

(** [process.env].  [ROUTE_CACHE_TTL_SECONDS], when set, holds a whole
    number of seconds. *)
Record Env : Type := {
  NODE_ENV : option string;
  ORS_API_KEY : option string;
  ROUTE_CACHE_TTL_SECONDS_env : option Z
}.

(** [process.env.NODE_ENV !== 'production'] *)
Definition notProduction (env : Env) : bool :=
  match NODE_ENV env with
  | Some s => negb (String.eqb s "production")
  | None => true
  end.

Definition ORS_KEY (env : Env) : option string := ORS_API_KEY env.

(** [!ORS_KEY]: unset or empty. *)
Definition noKey (env : Env) : bool :=
  match ORS_KEY env with
  | Some s => String.eqb s ""
  | None => true
  end.

(** [Number(process.env.ROUTE_CACHE_TTL_SECONDS) || 30] *)
Definition ROUTE_CACHE_TTL_SECONDS (env : Env) : Z :=
  match ROUTE_CACHE_TTL_SECONDS_env env with
  | Some n => if n =? 0 then 30 else n
  | None => 30
  end.

(** ** The in-memory shelters *)

Definition feature (name : json) (lon lat : float) : json :=
  JObj [("type", JStr "Feature");
        ("properties", JObj [("name", name)]);
        ("geometry", JObj [("type", JStr "Point");
                           ("coordinates", JArr [JNum lon; JNum lat])])].

(** [shelters.features] when the module is loaded. *)
Definition initialFeatures : list json :=
  [ feature (JStr "City Hall Shelter") 77.5933%float 12.9721%float;
    feature (JStr "Community Center") 77.5980%float 12.9755%float;
    feature (JStr "VIT Shelter") 77.6000%float 12.9680%float ].

(** The [shelters] object around its feature array. *)
Definition shelters (features : list json) : json :=
  JObj [("type", JStr "FeatureCollection"); ("features", JArr features)].

(** ** The cache of provider responses (node-cache) *)

(** A stored value and the time after which it is stale ([0]: never). *)
Record Entry : Type := { v : json; t : Z }.

(** Modelled from the spec: node-cache is a dependency, not part of src/.
    The spec calls it a cache with a short time-to-live window; the model
    follows the library's [get] and [set]: an entry is stamped
    [now + stdTTL * 1000] when it is set, and [get] drops and does not
    return an entry whose stamp is before the current time. *)
Definition cacheGet (now : Z) (key : string) (c : gmap string Entry)
  : option json * gmap string Entry :=
  match c !! key with
  | Some d =>
      if negb (t d =? 0) && (t d <? now) then (None, delete key c)
      else (Some (v d), c)
  | None => (None, c)
  end.

(** Modelled from the spec: [set] of node-cache with the standard
    time-to-live of the cache; a time-to-live of 0 means no expiry. *)
Definition cacheSet (stdTTL now : Z) (key : string) (value : json)
  (c : gmap string Entry) : gmap string Entry :=
  <[key := {| v := value; t := if stdTTL =? 0 then 0 else now + stdTTL * 1000 |}]> c.

(** ** Helpers *)

(** A value of [req.query]: absent, a string, or (repeated and bracketed
    parameters) an array or an object. *)
Inductive qval : Type :=
  | QUndefined
  | QString (s : string)
  | QArray (items : list string)
  | QObject (fields : list (string * string)).

(** [!q] *)
Definition qfalsy (q : qval) : bool :=
  match q with
  | QUndefined => true
  | QString s => String.eqb s ""
  | _ => false
  end.

Definition isValidLonLatPair (pair : qval) : bool :=
  match pair with
  | QString s =>
      if String.eqb s "" then false
      else
        let parts := map trim (split "," s) in
        match parts with
        | [p0; p1] =>
            let lon := Number p0 in
            let lat := Number p1 in
            if negb (PrimFloat.is_finite lon) || negb (PrimFloat.is_finite lat) then false
            else if (lon <? -180)%float || (180 <? lon)%float
                    || (lat <? -90)%float || (90 <? lat)%float then false
            else true
        | _ => false
        end
  | _ => false
  end.

(** ** Rate limiter for /api/route (express-rate-limit) *)

(** Hits of one client in its current window, and when the window ends. *)
Record Window : Type := { totalHits : Z; resetTime : Z }.

(** Modelled from the spec: express-rate-limit is a dependency, not part of
    src/.  The spec: requests per client address are capped to a ceiling
    within a window, requests beyond the ceiling are rejected.  A client's
    window opens at its first request and lasts [windowMs]; each request
    counts one hit. *)
Definition increment (windowMs now : Z) (key : string) (store : gmap string Window)
  : Window * gmap string Window :=
  let w := match store !! key with
           | Some w =>
               if now <? resetTime w
               then {| totalHits := totalHits w + 1; resetTime := resetTime w |}
               else {| totalHits := 1; resetTime := now + windowMs |}
           | None => {| totalHits := 1; resetTime := now + windowMs |}
           end in
  (w, <[key := w]> store).

(** Modelled from the spec: the middleware made by [rateLimit] counts the
    request of the client and tells whether it is beyond the ceiling
    [max]. *)
Definition rateLimit (windowMs max now : Z) (key : string) (store : gmap string Window)
  : bool * gmap string Window :=
  let '(w, store') := increment windowMs now key store in
  (max <? totalHits w, store').

Definition windowMs : Z := 15 * 60 * 1000.
Definition max : Z := 60.

Definition routeLimiter : Z -> string -> gmap string Window -> bool * gmap string Window :=
  rateLimit windowMs max.

(** ** Responses *)

Record Response : Type := { status : Z; body : json }.

(** [res.json(b)] and [res.status(s).json(b)] *)
Definition json200 (b : json) : Response := {| status := 200; body := b |}.
Definition jsonStatus (s : Z) (b : json) : Response := {| status := s; body := b |}.

Definition errorBody (msg : string) : json := JObj [("error", JStr msg)].

(** Modelled from the spec: the limiter answers a request beyond the
    ceiling itself, with a rate-limit error (429), and does not call the
    handler behind it. *)
Definition tooManyRequests : Response :=
  {| status := 429; body := JStr "Too many requests, please try again later." |}.

Definition dq : string := String (ascii_of_nat 34) EmptyString.

Definition startEndRequired : string :=
  "start and end required as query params in " ++ dq ++ "lon,lat" ++ dq ++ " format".

Definition startEndInvalid : string :=
  "start and end must be valid lon,lat pairs (numbers). Example: start=77.5933,12.9721".

(** ** The external provider *)

(** What happens to [fetch(url, ...)] and to reading its response: a
    rejection (the network, or a body that does not parse), a response that
    is not ok with its status and text, or an ok response with its parsed
    body. *)
Inductive FetchOutcome : Type :=
  | Rejects (message : string)
  | NotOk (status : Z) (text : string)
  | Ok (data : json).

(** One call of the provider, for the pair of points its URL carries. *)
Record Call : Type := { callStart : string; callEnd : string }.

(** ** Routes *)

(** GET /api/health *)
Definition health (env : Env) : Response :=
  json200 (JObj [("status", JStr "ok");
                 ("env", JStr match NODE_ENV env with
                              | Some s => if String.eqb s "" then "development" else s
                              | None => "development"
                              end)]).

(** GET /api/shelters *)
Definition listShelters (features : list json) : Response :=
  json200 (shelters features).

(** POST /api/shelters, registered outside production only.  The result is
    the response and the feature array after the request.  Past the test,
    [name] is defined and [lon] and [lat] are numbers, which [Number]
    leaves as they are; the last branch is not reached. *)
Definition postShelters (reqBody : option json) (features : list json)
  : Response * list json :=
  let b := match reqBody with
           | Some x => if truthy x then x else JObj []
           | None => JObj []
           end in
  let name := get b "name" in
  let lon := get b "lon" in
  let lat := get b "lat" in
  let invalid :=
    (jsonStatus 400 (errorBody "name, lon, lat required (lon and lat must be numbers)"),
     features) in
  if negb (truthy_opt name) || negb (isFinite lon) || negb (isFinite lat) then invalid
  else
    match name, lon, lat with
    | Some n, Some (JNum x), Some (JNum y) =>
        let features' := (features ++ [feature n x y])%list in
        (jsonStatus 201 (JObj [("message", JStr "shelter added");
                               ("shelters", shelters features')]),
         features')
    | _, _, _ => invalid
    end.

(** The handler of GET /api/route, behind the limiter.  [now] is the time
    of the cache lookup, [done] the time at which the provider's response
    has been read and is stored; [upstream] is what the provider does if it
    is called.  The result is the response, the cache after the request and
    the calls made to the provider.  Past the validation [start] and [end]
    are strings; the last branch is not reached. *)
Definition route (env : Env) (now done : Z) (start end_ : qval)
  (upstream : FetchOutcome) (routeCache : gmap string Entry)
  : Response * gmap string Entry * list Call :=
  if noKey env then
    (jsonStatus 500 (errorBody "ORS_API_KEY not configured on server."), routeCache, [])
  else if qfalsy start || qfalsy end_ then
    (jsonStatus 400 (errorBody startEndRequired), routeCache, [])
  else if negb (isValidLonLatPair start) || negb (isValidLonLatPair end_) then
    (jsonStatus 400 (errorBody startEndInvalid), routeCache, [])
  else
    match start, end_ with
    | QString s, QString e =>
        let cacheKey := s ++ "|" ++ e in
        let '(cached, routeCache1) := cacheGet now cacheKey routeCache in
        if truthy_opt cached then
          (json200 (JObj [("fromCache", JBool true);
                          ("data", match cached with Some d => d | None => JNull end)]),
           routeCache1, [])
        else
          let call := {| callStart := s; callEnd := e |} in
          match upstream with
          | NotOk st text =>
              (jsonStatus st (JObj [("error", JStr "OpenRouteService error");
                                    ("details", JStr text)]),
               routeCache1, [call])
          | Ok data =>
              (json200 (JObj [("fromCache", JBool false); ("data", data)]),
               cacheSet (ROUTE_CACHE_TTL_SECONDS env) done cacheKey data routeCache1,
               [call])
          | Rejects message =>
              (jsonStatus 500 (JObj [("error", JStr "Failed to fetch route");
                                     ("details", JStr message)]),
               routeCache1, [call])
          end
    | _, _ =>
        (jsonStatus 400 (errorBody startEndInvalid), routeCache, [])
    end.

(** ** The application *)

(** The module state: the feature array of [shelters], the route cache and
    the limiter's store. *)
Record State : Type := {
  features : list json;
  routeCache : gmap string Entry;
  hits : gmap string Window
}.

Definition initialState : State :=
  {| features := initialFeatures; routeCache := ∅; hits := ∅ |}.

(** The requests the gateway serves; a route request carries the client
    address and what the provider would do. *)
Inductive Request : Type :=
  | GET_health
  | GET_shelters
  | POST_shelters (reqBody : option json)
  | GET_route (ip : string) (start end_ : qval) (upstream : FetchOutcome) (done : Z).

(** Express answers 404 for a route that is not registered. *)
Definition notFound : Response :=
  {| status := 404; body := JStr "Cannot POST /api/shelters" |}.

(** One request at time [now], served to completion. *)
Definition handle (env : Env) (now : Z) (req : Request) (st : State)
  : Response * State * list Call :=
  match req with
  | GET_health => (health env, st, [])
  | GET_shelters => (listShelters (features st), st, [])
  | POST_shelters reqBody =>
      if notProduction env then
        let '(res, features') := postShelters reqBody (features st) in
        (res, {| features := features'; routeCache := routeCache st; hits := hits st |}, [])
      else (notFound, st, [])
  | GET_route ip start end_ upstream done =>
      let '(limited, hits') := routeLimiter now ip (hits st) in
      if limited then
        (tooManyRequests,
         {| features := features st; routeCache := routeCache st; hits := hits' |}, [])
      else
        let '(res, routeCache', calls) :=
          route env now done start end_ upstream (routeCache st) in
        (res, {| features := features st; routeCache := routeCache'; hits := hits' |}, calls)
  end.

(** A sequence of timed requests, served one after the other; the result
    is the responses in order, the final state and all provider calls. *)
Fixpoint run (env : Env) (reqs : list (Z * Request)) (st : State)
  : list Response * State * list Call :=
  match reqs with
  | [] => ([], st, [])
  | (now, req) :: rest =>
      let '(res, st1, calls) := handle env now req st in
      let '(ress, st2, calls') := run env rest st1 in
      (res :: ress, st2, (calls ++ calls')%list)
  end.

End Backend.

(* ===================================================================== *)
(** * frontend/src/hooks/useLiveRoute.js                                  *)
(* ===================================================================== *)

(** The numbers of the hook are coordinates in degrees and distances in
    metres.  They are modelled as real numbers: [Math.sin], [Math.cos],
    [Math.sqrt] and [Math.atan2] are the mathematical functions, and the
    rounding of binary64 arithmetic is left out. *)
Module Frontend.
Local Open Scope R_scope.

(** [Math.atan2(y, x)]: the angle of the point [(x, y)], in (-PI, PI]. *)
Definition atan2 (y x : R) : R :=
  if Rlt_dec 0 x then atan (y / x)
  else if Rlt_dec x 0 then
    if Rle_dec 0 y then atan (y / x) + PI else atan (y / x) - PI
  else if Rlt_dec 0 y then PI / 2
  else if Rlt_dec y 0 then - (PI / 2)
  else 0.

Definition toRad (d : R) : R := d * PI / 180.

Definition distanceMeters (lat1 lon1 lat2 lon2 : R) : R :=
  let R := 6371000 in
  let dLat := toRad (lat2 - lat1) in
  let dLon := toRad (lon2 - lon1) in
  let a := sin (dLat / 2) ^ 2
           + cos (toRad lat1) * cos (toRad lat2) * sin (dLon / 2) ^ 2 in
  let c := 2 * atan2 (sqrt a) (sqrt (1 - a)) in
  R * c.

(** A shelter as the hook reads it: [feat.properties.name] and
    [feat.geometry.coordinates], longitude first. *)
Record Feature : Type := { name : string; coordinates : R * R }.

(** The shelters document; [features] may be missing. *)
Record GeoJSON : Type := { features : option (list Feature) }.

(** [{ feature, distance }] *)
Record Nearest : Type := { feature : Feature; distance : R }.

(** The distance the scan computes for one shelter. *)
Definition distanceTo (lat lon : R) (feat : Feature) : R :=
  let '(lonS, latS) := coordinates feat in
  distanceMeters lat lon latS lonS.

(** One turn of the loop of [computeNearest]. *)
Definition scan (lat lon : R) (best : option Nearest) (feat : Feature)
  : option Nearest :=
  let d := distanceTo lat lon feat in
  match best with
  | None => Some {| feature := feat; distance := d |}
  | Some b =>
      if Rlt_dec d (distance b) then Some {| feature := feat; distance := d |}
      else best
  end.

(** [geojson] may be [null] or [undefined]: [None]. *)
Definition computeNearest (lat lon : R) (geojson : option GeoJSON) : option Nearest :=
  match geojson with
  | None => None
  | Some g =>
      match features g with
      | None => None
      | Some [] => None
      | Some feats => fold_left (scan lat lon) feats None
      end
  end.

(** ** The throttle of [requestRoute] *)

(** [{ raw, coords, fromCache }]: the route the hook keeps. *)
Record Route : Type := {
  raw : JS.json;
  coords : list (JS.json * JS.json);
  fromCache : bool
}.

(** The state of the hook that [requestRoute] touches: the reference
    [lastReqRef], created as [useRef(0)], and the [status] and [route]
    states. *)
Record Hook : Type := {
  lastReqRef : Z;
  status : string;
  route : option Route
}.

Definition initialHook : Hook :=
  {| lastReqRef := 0; status := "idle"; route := None |}.

(** How the request that follows a permitted check ends: the gateway's
    answer is turned into a route, or the fetch or a response that is not
    ok raises an error. *)
Inductive Settled : Type :=
  | Fulfilled (out : Route)
  | Raised (message : string).

(** What [await requestRoute(...)] gives the caller. *)
Inductive Result : Type :=
  | Null
  | Returned (out : Route)
  | Thrown (message : string).

(** [requestRoute] at time [now = Date.now()]. *)
Definition requestRoute (throttleMs now : Z) (settled : Settled) (h : Hook)
  : Result * Hook :=
  if (now - lastReqRef h <? throttleMs)%Z then (Null, h)
  else
    let h1 := {| lastReqRef := now; status := "requesting-route"; route := route h |} in
    match settled with
    | Raised message => (Thrown message, h1)
    | Fulfilled out =>
        (Returned out,
         {| lastReqRef := now; status := "route-ready"; route := Some out |})
    end.

(** A permission check is granted when the call goes on to the request. *)
Definition granted (r : Result) : bool :=
  match r with
  | Null => false
  | _ => true
  end.

(** The times of the granted checks of successive calls, each with its
    time and the end of its request, in order. *)
Fixpoint grants (throttleMs : Z) (calls : list (Z * Settled)) (h : Hook) : list Z :=
  match calls with
  | [] => []
  | (now, settled) :: rest =>
      let '(r, h1) := requestRoute throttleMs now settled h in
      if granted r then now :: grants throttleMs rest h1
      else grants throttleMs rest h1
  end.

End Frontend.

(* ===================================================================== *)
(** * Properties of the runtime model                                     *)
(* ===================================================================== *)

Section Strings.
Import JS.

(** A string of white space only. *)
Definition blank (s : string) : bool :=
  forallb isWhiteSpace (list_ascii_of_string s).

Lemma trimStart_blank s : blank s = true -> trimStart s = "".
Proof.
  unfold blank. induction s as [|c s IH]; simpl; [reflexivity|].
  intros H. apply andb_prop in H as [Hc Hs]. rewrite Hc. auto.
Qed.

Lemma trim_blank s : blank s = true -> trim s = "".
Proof. intros H. unfold trim. rewrite trimStart_blank by assumption. reflexivity. Qed.

Lemma comma_not_white c : isWhiteSpace c = true -> Ascii.eqb c "," = false.
Proof.
  intros H. destruct (Ascii.eqb_spec c ","%char) as [->|]; [|reflexivity].
  vm_compute in H. discriminate.
Qed.

Lemma split_blank s : blank s = true -> split "," s = [s].
Proof.
  unfold blank. induction s as [|c s IH]; simpl; [reflexivity|].
  intros H. apply andb_prop in H as [Hc Hs].
  rewrite (comma_not_white _ Hc), (IH Hs). reflexivity.
Qed.

Lemma split_blank_comma a b :
  blank a = true -> blank b = true -> split "," (a ++ "," ++ b) = [a; b].
Proof.
  intros Ha Hb. induction a as [|c a IH].
  - change (split "," ("" ++ "," ++ b)) with ("" :: split "," b).
    rewrite (split_blank _ Hb). reflexivity.
  - unfold blank in Ha. simpl in Ha. apply andb_prop in Ha as [Hc Ha].
    change (split "," (String c a ++ "," ++ b))
      with (if Ascii.eqb c "," then "" :: split "," (a ++ "," ++ b)
            else match split "," (a ++ "," ++ b) with
                 | h :: t => String c h :: t
                 | [] => [String c ""]
                 end).
    rewrite (comma_not_white _ Hc), (IH Ha). reflexivity.
Qed.

Lemma Number_blank s : blank s = true -> Number s = 0%float.
Proof.
  intros H. unfold Number, StringToNumber. rewrite (trim_blank _ H). reflexivity.
Qed.

End Strings.

(** The rounding of [Number] agrees with the literals of the source. *)
Example Number_literals :
  JS.Number "77.5933" = 77.5933%float /\ JS.Number "12.9721" = 12.9721%float
  /\ JS.Number " -180 " = (-180)%float /\ JS.Number "0x5A" = 90%float
  /\ JS.Number "1e2" = 100%float /\ JS.Number ".5" = 0.5%float
  /\ JS.Number "1e999" = infinity /\ JS.Number "12,5" = nan
  /\ JS.Number "abc" = nan /\ JS.Number "-" = nan
  /\ JS.Number "0.1" = 0.1%float /\ JS.Number "5e-324" = 5e-324%float
  /\ JS.Number "2e-324" = 0%float
  /\ JS.Number "1.7976931348623157e308" = 1.7976931348623157e308%float
  /\ JS.Number "9007199254740993" = 9007199254740992%float
  /\ JS.Number "180.00000000000001" = 180%float.
Proof. vm_compute. repeat split; reflexivity. Qed.

(* ===================================================================== *)
(** * The coordinate validator                                            *)
(* ===================================================================== *)

Section Validator.
Import JS Backend.

Example isValidLonLatPair_examples :
  isValidLonLatPair (QString "77.5933,12.9721") = true
  /\ isValidLonLatPair (QString " 180 , -90 ") = true
  /\ isValidLonLatPair (QString "181,0") = false
  /\ isValidLonLatPair (QString "0,90.5") = false
  /\ isValidLonLatPair (QString "1,2,3") = false
  /\ isValidLonLatPair (QString "77.5933") = false
  /\ isValidLonLatPair (QString "a,b") = false
  /\ isValidLonLatPair (QString "") = false
  /\ isValidLonLatPair QUndefined = false
  /\ isValidLonLatPair (QArray ["1,2"]) = false.
Proof. vm_compute. repeat split; reflexivity. Qed.

Lemma isValidLonLatPair_blank a b :
  blank a = true -> blank b = true ->
  isValidLonLatPair (QString (a ++ "," ++ b)) = true.
Proof.
  intros Ha Hb. unfold isValidLonLatPair.
  destruct (String.eqb_spec (a ++ "," ++ b) "") as [E|_].
  { destruct a; discriminate E. }
  rewrite (split_blank_comma _ _ Ha Hb). simpl map.
  rewrite (trim_blank _ Ha), (trim_blank _ Hb). reflexivity.
Qed.

(** C9.  Empty and white-space-only components convert to the number 0, so
    the validator accepts a pair made of them (the string [","] among
    them); with a credential configured, GET /api/route lets such a start
    and end through validation: whatever the cache holds, the answer is not
    one of the two validation errors, and on an empty cache the provider is
    called with the two strings. *)
Theorem C9_validator_accepts_blank_components :
  forall a b c d : string,
    blank a = true -> blank b = true -> blank c = true -> blank d = true ->
    Number a = 0%float /\ Number b = 0%float
    /\ isValidLonLatPair (QString (a ++ "," ++ b)) = true
    /\ isValidLonLatPair (QString ",") = true
    /\ forall env now done upstream,
         noKey env = false ->
         (forall cache : gmap string Entry,
            let res := fst (fst (route env now done (QString (a ++ "," ++ b))
                                       (QString (c ++ "," ++ d)) upstream cache)) in
            body res <> errorBody startEndInvalid
            /\ body res <> errorBody startEndRequired)
         /\ snd (route env now done (QString (a ++ "," ++ b))
                       (QString (c ++ "," ++ d)) upstream ∅)
            = [{| callStart := a ++ "," ++ b; callEnd := c ++ "," ++ d |}].
Proof.
  intros a b c d Ha Hb Hc Hd.
  split; [apply Number_blank; assumption|].
  split; [apply Number_blank; assumption|].
  split; [apply isValidLonLatPair_blank; assumption|].
  split; [reflexivity|].
  intros env now done upstream Hkey.
  assert (Hs : qfalsy (QString (a ++ "," ++ b)) = false).
  { simpl. destruct a; reflexivity. }
  assert (He : qfalsy (QString (c ++ "," ++ d)) = false).
  { simpl. destruct c; reflexivity. }
  split.
  - intros cache. unfold route.
    rewrite Hkey, Hs, He, (isValidLonLatPair_blank _ _ Ha Hb),
      (isValidLonLatPair_blank _ _ Hc Hd).
    cbn [orb negb].
    destruct (cacheGet now _ cache) as [cached cache1].
    destruct (truthy_opt cached); [split; discriminate|].
    destruct upstream; split; discriminate.
  - unfold route.
    rewrite Hkey, Hs, He, (isValidLonLatPair_blank _ _ Ha Hb),
      (isValidLonLatPair_blank _ _ Hc Hd).
    cbn [orb negb]. unfold cacheGet. rewrite lookup_empty. cbn [truthy_opt].
    destruct upstream; reflexivity.
Qed.

Lemma C9_witness :
  JS.Number "" = 0%float /\ JS.Number " " = 0%float
  /\ isValidLonLatPair (QString ("" ++ "," ++ " ")) = true
  /\ isValidLonLatPair (QString ",") = true
  /\ forall env now done upstream,
       noKey env = false ->
       (forall cache : gmap string Entry,
          let res := fst (fst (route env now done (QString ("" ++ "," ++ " "))
                                     (QString (" " ++ "," ++ "")) upstream cache)) in
          body res <> errorBody startEndInvalid
          /\ body res <> errorBody startEndRequired)
       /\ snd (route env now done (QString ("" ++ "," ++ " "))
                     (QString (" " ++ "," ++ "")) upstream ∅)
          = [{| callStart := "" ++ "," ++ " "; callEnd := " " ++ "," ++ "" |}].
Proof.
  apply (C9_validator_accepts_blank_components "" " " " " ""); reflexivity.
Defined.

(** What the validator refuses in a value that is present: a value that is
    not a string, a string that does not split at commas into two
    components, a component that does not convert to a finite number, or a
    longitude or latitude out of range. *)
Inductive refused : qval -> Prop :=
  | refused_undefined : refused QUndefined
  | refused_array items : refused (QArray items)
  | refused_object fields : refused (QObject fields)
  | refused_components s :
      length (split "," s) <> 2%nat -> refused (QString s)
  | refused_number s p0 p1 :
      split "," s = [p0; p1] ->
      PrimFloat.is_finite (Number (trim p0)) = false
      \/ PrimFloat.is_finite (Number (trim p1)) = false ->
      refused (QString s)
  | refused_range s p0 p1 :
      split "," s = [p0; p1] ->
      (Number (trim p0) <? -180)%float = true \/ (180 <? Number (trim p0))%float = true
      \/ (Number (trim p1) <? -90)%float = true \/ (90 <? Number (trim p1))%float = true ->
      refused (QString s).

Lemma refused_invalid q : refused q -> isValidLonLatPair q = false.
Proof.
  intros H. destruct H as [| | |s Hn|s p0 p1 Hs Hf|s p0 p1 Hs Hr]; try reflexivity;
    unfold isValidLonLatPair; destruct (String.eqb s ""); try reflexivity.
  - destruct (split "," s) as [|a [|b [|c l]]]; simpl in *; try reflexivity.
    congruence.
  - rewrite Hs. simpl map. cbv beta iota zeta.
    destruct Hf as [-> | ->]; rewrite ?orb_true_r; reflexivity.
  - rewrite Hs. simpl map. cbv beta iota zeta.
    destruct (negb (PrimFloat.is_finite (Number (trim p0)))
              || negb (PrimFloat.is_finite (Number (trim p1)))); [reflexivity|].
    destruct Hr as [-> | [-> | [-> | ->]]]; rewrite ?orb_true_r; reflexivity.
Qed.

Lemma invalid_refused q :
  isValidLonLatPair q = false -> q = QString "" \/ refused q.
Proof.
  destruct q as [|s|items|fields];
    [intros _; right; constructor| |intros _; right; constructor..].
  unfold isValidLonLatPair. destruct (String.eqb_spec s "") as [->|_]; [auto|].
  intros H. right.
  destruct (split "," s) as [|p0 [|p1 [|p2 l]]] eqn:Hs;
    try (apply refused_components; rewrite Hs; simpl; lia).
  simpl map in H. cbv beta iota zeta in H.
  destruct (PrimFloat.is_finite (Number (trim p0))) eqn:F0;
    [|apply (refused_number s p0 p1); auto].
  destruct (PrimFloat.is_finite (Number (trim p1))) eqn:F1;
    [|apply (refused_number s p0 p1); auto].
  simpl in H. apply (refused_range s p0 p1); [assumption|].
  destruct (Number (trim p0) <? -180)%float; [auto|].
  destruct (180 <? Number (trim p0))%float; [auto|].
  destruct (Number (trim p1) <? -90)%float; [auto|].
  destruct (90 <? Number (trim p1))%float; [auto|]. discriminate H.
Qed.

(** The request is one that validation stops: [start] or [end] is missing
    or empty, or one of them is refused. *)
Definition stopped (start end_ : qval) : Prop :=
  qfalsy start = true \/ qfalsy end_ = true \/ refused start \/ refused end_.

Definition envWithKey : Env :=
  {| NODE_ENV := None; ORS_API_KEY := Some "key"; ROUTE_CACHE_TTL_SECONDS_env := None |}.

Definition envWithoutKey : Env :=
  {| NODE_ENV := None; ORS_API_KEY := None; ROUTE_CACHE_TTL_SECONDS_env := None |}.

(** C4, as the handler has it.  With a credential configured, a request in
    which [start] or [end] is missing or empty, or is refused by the
    validator, is answered 400 with a validation error, the provider is not
    called and the cache is left as it is; a missing [start] or [end] gives
    the message that begins "start and end required".  Without a credential
    every request is answered 500, again without a call of the provider. *)
Theorem C4_invalid_request_400 :
  forall env now done start end_ upstream (cache : gmap string Entry),
    (noKey env = false ->
     stopped start end_ ->
     exists msg,
       route env now done start end_ upstream cache
       = ({| status := 400; body := errorBody msg |}, cache, [])
       /\ (msg = startEndRequired \/ msg = startEndInvalid)
       /\ (qfalsy start = true \/ qfalsy end_ = true -> msg = startEndRequired)
       /\ String.prefix "start and end required" startEndRequired = true)
    /\ (noKey env = true ->
        route env now done start end_ upstream cache
        = ({| status := 500; body := errorBody "ORS_API_KEY not configured on server." |},
           cache, [])).
Proof.
  intros env now done start end_ upstream cache. split.
  - intros Hkey Hstop. unfold route. rewrite Hkey.
    destruct (qfalsy start || qfalsy end_) eqn:Hf.
    + exists startEndRequired. repeat split; auto.
    + apply orb_false_elim in Hf as [Hs He].
      assert (Hv : negb (isValidLonLatPair start) || negb (isValidLonLatPair end_) = true).
      { destruct Hstop as [H|[H|[H|H]]]; try congruence;
          rewrite (refused_invalid _ H); rewrite ?orb_true_r; reflexivity. }
      rewrite Hv. exists startEndInvalid. repeat split; auto.
      intros [H|H]; congruence.
  - intros Hkey. unfold route. rewrite Hkey. reflexivity.
Qed.

Lemma C4_witness :
  (exists msg,
     route envWithKey 1000 1200 (QString "181,0") (QString "77.5933,12.9721")
           (Ok JNull) ∅
     = ({| status := 400; body := errorBody msg |}, ∅, [])
     /\ (msg = startEndRequired \/ msg = startEndInvalid)
     /\ (qfalsy (QString "181,0") = true \/ qfalsy (QString "77.5933,12.9721") = true
         -> msg = startEndRequired)
     /\ String.prefix "start and end required" startEndRequired = true)
  /\ (exists msg,
        route envWithKey 1000 1200 QUndefined (QString "77.5933,12.9721")
              (Ok JNull) ∅
        = ({| status := 400; body := errorBody msg |}, ∅, [])
        /\ (msg = startEndRequired \/ msg = startEndInvalid)
        /\ (qfalsy QUndefined = true \/ qfalsy (QString "77.5933,12.9721") = true
            -> msg = startEndRequired)
        /\ String.prefix "start and end required" startEndRequired = true).
Proof.
  split.
  - apply (C4_invalid_request_400 envWithKey 1000 1200 (QString "181,0")
             (QString "77.5933,12.9721") (Ok JNull) ∅).
    + reflexivity.
    + right. right. left. apply (refused_range "181,0" "181" "0"); [reflexivity|].
      right. left. reflexivity.
  - apply (C4_invalid_request_400 envWithKey 1000 1200 QUndefined
             (QString "77.5933,12.9721") (Ok JNull) ∅).
    + reflexivity.
    + left. reflexivity.
Defined.

(** A written coordinate has at least one digit. *)
Definition hasDigit (s : string) : bool :=
  existsb (fun c => match digit 10 c with Some _ => true | None => false end)
          (list_ascii_of_string s).

(** The claim fails on two sides.  Without a credential a request with
    [start] missing is answered 500, before any validation.  With a
    credential, the pair [","], whose components hold no digit, passes
    validation: the provider is called and its answer is sent with 200. *)
Lemma C4_counterexample :
  (route envWithoutKey 1000 1200 QUndefined (QString "77.5933,12.9721") (Ok JNull) ∅
   = ({| status := 500; body := errorBody "ORS_API_KEY not configured on server." |},
      ∅, []))
  /\ (split "," "," = [""; ""] /\ hasDigit "" = false
      /\ exists cache',
           route envWithKey 1000 1200 (QString ",") (QString "77.5933,12.9721")
                 (Ok (JObj [])) ∅
           = ({| status := 200;
                 body := JObj [("fromCache", JBool false); ("data", JObj [])] |},
              cache',
              [{| callStart := ","; callEnd := "77.5933,12.9721" |}])).
Proof.
  split; [reflexivity|]. split; [reflexivity|]. split; [reflexivity|].
  eexists. reflexivity.
Qed.

End Validator.

(* ===================================================================== *)
(** * The shelter endpoints                                               *)
(* ===================================================================== *)

Section Shelters.
Import JS Backend.

(** [req.body || {}] *)
Definition bodyOrEmpty (reqBody : option json) : json :=
  match reqBody with
  | Some x => if truthy x then x else JObj []
  | None => JObj []
  end.

Definition invalidBody : Response :=
  {| status := 400;
     body := errorBody "name, lon, lat required (lon and lat must be numbers)" |}.

Definition added (features' : list json) : Response :=
  {| status := 201;
     body := JObj [("message", JStr "shelter added"); ("shelters", shelters features')] |}.

Lemma postShelters_invalid reqBody feats :
  let b := bodyOrEmpty reqBody in
  truthy_opt (get b "name") = false \/ isFinite (get b "lon") = false
  \/ isFinite (get b "lat") = false ->
  postShelters reqBody feats = (invalidBody, feats).
Proof.
  intros b H. unfold postShelters. fold (bodyOrEmpty reqBody). fold b.
  cbv zeta.
  destruct H as [-> | [-> | ->]]; cbn [negb orb]; rewrite ?orb_true_r; reflexivity.
Qed.

Lemma postShelters_valid reqBody feats n x y :
  let b := bodyOrEmpty reqBody in
  get b "name" = Some n -> truthy n = true ->
  get b "lon" = Some (JNum x) -> PrimFloat.is_finite x = true ->
  get b "lat" = Some (JNum y) -> PrimFloat.is_finite y = true ->
  postShelters reqBody feats
  = (added (feats ++ [feature n x y]), (feats ++ [feature n x y])%list).
Proof.
  intros b Hn Tn Hx Fx Hy Fy. unfold postShelters. fold (bodyOrEmpty reqBody). fold b.
  cbv zeta. rewrite Hn, Hx, Hy. cbn [truthy_opt isFinite]. rewrite Tn, Fx, Fy.
  reflexivity.
Qed.

(** The test of the handler, as a proposition on the parsed body. *)
Definition bodyInvalid (reqBody : option json) : Prop :=
  let b := bodyOrEmpty reqBody in
  truthy_opt (get b "name") = false
  \/ (forall x, get b "lon" = Some (JNum x) -> PrimFloat.is_finite x = false)
  \/ (forall y, get b "lat" = Some (JNum y) -> PrimFloat.is_finite y = false).

Lemma isFinite_false v :
  isFinite v = false <-> (forall x, v = Some (JNum x) -> PrimFloat.is_finite x = false).
Proof.
  split.
  - intros H x ->. exact H.
  - intros H. destruct v as [[| | x | | |]|]; try reflexivity. apply H. reflexivity.
Qed.

Lemma isFinite_true v :
  isFinite v = true -> exists x, v = Some (JNum x) /\ PrimFloat.is_finite x = true.
Proof.
  destruct v as [[| | x | | |]|]; try discriminate. intros H. exists x. auto.
Qed.

(** C10.  Outside production, POST /api/shelters answers 400, and leaves
    the shelters as they are, exactly when [name] is falsy or [lon] or
    [lat] is not a finite number.  In every other case, whatever the finite
    values of [lon] and [lat] are, it appends the shelter and answers 201
    with the list that holds it.  No range is checked: longitude 1000 and
    latitude -500 are stored. *)
Theorem C10_post_shelters :
  forall env now st reqBody,
    notProduction env = true ->
    let b := bodyOrEmpty reqBody in
    (bodyInvalid reqBody ->
       handle env now (POST_shelters reqBody) st = (invalidBody, st, []))
    /\ (~ bodyInvalid reqBody ->
        exists n x y,
          get b "name" = Some n /\ truthy n = true
          /\ get b "lon" = Some (JNum x) /\ PrimFloat.is_finite x = true
          /\ get b "lat" = Some (JNum y) /\ PrimFloat.is_finite y = true
          /\ handle env now (POST_shelters reqBody) st
             = (added (features st ++ [feature n x y]),
                {| features := features st ++ [feature n x y];
                   routeCache := routeCache st; hits := hits st |}, []))
    /\ (status (fst (fst (handle env now (POST_shelters reqBody) st))) = 400
        <-> bodyInvalid reqBody)
    /\ (forall n, truthy n = true ->
        handle env now
          (POST_shelters (Some (JObj [("name", n); ("lon", JNum 1000); ("lat", JNum (-500))])))
          st
        = (added (features st ++ [feature n 1000 (-500)]),
           {| features := features st ++ [feature n 1000 (-500)];
              routeCache := routeCache st; hits := hits st |}, []))
    /\ truthy (JStr "") = false.
Proof.
  intros env now st reqBody Hdev b.
  assert (Hbad : bodyInvalid reqBody ->
                 handle env now (POST_shelters reqBody) st = (invalidBody, st, [])).
  { intros H. unfold handle. rewrite Hdev.
    rewrite postShelters_invalid; [destruct st; reflexivity|].
    destruct H as [H|[H|H]]; [left; exact H | right; left | right; right];
      apply isFinite_false; exact H. }
  assert (Hgood : ~ bodyInvalid reqBody ->
     exists n x y,
       get b "name" = Some n /\ truthy n = true
       /\ get b "lon" = Some (JNum x) /\ PrimFloat.is_finite x = true
       /\ get b "lat" = Some (JNum y) /\ PrimFloat.is_finite y = true
       /\ handle env now (POST_shelters reqBody) st
          = (added (features st ++ [feature n x y]),
             {| features := features st ++ [feature n x y];
                routeCache := routeCache st; hits := hits st |}, [])).
  { intros H. unfold bodyInvalid in H. fold b in H.
    destruct (truthy_opt (get b "name")) eqn:Tn; [|tauto].
    destruct (isFinite (get b "lon")) eqn:Fx;
      [|exfalso; apply H; right; left; apply isFinite_false; exact Fx].
    destruct (isFinite (get b "lat")) eqn:Fy;
      [|exfalso; apply H; right; right; apply isFinite_false; exact Fy].
    destruct (get b "name") as [n|] eqn:Hn; [|discriminate].
    apply isFinite_true in Fx as (x & Hx & Fx).
    apply isFinite_true in Fy as (y & Hy & Fy).
    exists n, x, y.
    split; [reflexivity|]. split; [exact Tn|].
    split; [exact Hx|]. split; [exact Fx|].
    split; [exact Hy|]. split; [exact Fy|].
    unfold handle. rewrite Hdev.
    rewrite (postShelters_valid reqBody (features st) n x y); auto. }
  split; [exact Hbad|]. split; [exact Hgood|]. split.
  - split.
    + intros H400.
      destruct (truthy_opt (get b "name")) eqn:Tn; [|left; exact Tn].
      destruct (isFinite (get b "lon")) eqn:Fx;
        [|right; left; apply isFinite_false; exact Fx].
      destruct (isFinite (get b "lat")) eqn:Fy;
        [|right; right; apply isFinite_false; exact Fy].
      exfalso.
      destruct Hgood as (n & x & y & _ & _ & _ & _ & _ & _ & E).
      { intros [H|[H|H]].
        - fold b in H. congruence.
        - apply isFinite_false in H. fold b in H. congruence.
        - apply isFinite_false in H. fold b in H. congruence. }
      rewrite E in H400. discriminate H400.
    + intros H. rewrite (Hbad H). reflexivity.
  - split; [|reflexivity].
    intros n Tn. unfold handle. rewrite Hdev.
    rewrite (postShelters_valid _ (features st) n 1000%float (-500)%float);
      auto.
Qed.

Definition devEnv : Env :=
  {| NODE_ENV := None; ORS_API_KEY := Some "key"; ROUTE_CACHE_TTL_SECONDS_env := None |}.

Definition prodEnv : Env :=
  {| NODE_ENV := Some "production"; ORS_API_KEY := Some "key";
     ROUTE_CACHE_TTL_SECONDS_env := None |}.

Definition newShelter : json :=
  JObj [("name", JStr "Depot"); ("lon", JNum 1000); ("lat", JNum (-500))].

Lemma C10_witness :
  status (fst (fst (handle devEnv 0 (POST_shelters (Some (JObj [("name", JStr "")]))) initialState)))
  = 400
  /\ handle devEnv 0 (POST_shelters (Some newShelter)) initialState
     = (added (initialFeatures ++ [feature (JStr "Depot") 1000 (-500)]),
        {| features := initialFeatures ++ [feature (JStr "Depot") 1000 (-500)];
           routeCache := ∅; hits := ∅ |}, []).
Proof.
  split.
  - apply (C10_post_shelters devEnv 0 initialState (Some (JObj [("name", JStr "")])));
      [reflexivity|].
    left. reflexivity.
  - apply (C10_post_shelters devEnv 0 initialState (Some newShelter)); reflexivity.
Defined.

(** A request that is not POST /api/shelters. *)
Definition notPost (req : Request) : bool :=
  match req with
  | POST_shelters _ => false
  | _ => true
  end.

Lemma handle_features env now req st :
  notProduction env = false \/ notPost req = true ->
  features (snd (fst (handle env now req st))) = features st.
Proof.
  intros H. destruct req as [| |reqBody|ip start end_ upstream done]; try reflexivity.
  - destruct H as [H|H]; [|discriminate H]. unfold handle. rewrite H. reflexivity.
  - unfold handle. destruct (routeLimiter now ip (hits st)) as [limited hits'].
    destruct limited; [reflexivity|].
    destruct (route env now done start end_ upstream (routeCache st)) as [[res c] calls].
    reflexivity.
Qed.

Lemma handle_listShelters env now st :
  fst (fst (handle env now GET_shelters st)) = listShelters (features st).
Proof. reflexivity. Qed.

(** C6, as the gateway has it.  In production no operation changes the
    shelters: after every sequence of requests the feature array is the one
    the sequence started with, and every GET /api/shelters in the sequence
    is answered with it.  The same holds outside production for every
    sequence without a POST /api/shelters. *)
Theorem C6_shelters_static_in_production :
  forall env reqs st,
    notProduction env = false \/ forallb (fun r => notPost (snd r)) reqs = true ->
    features (snd (fst (run env reqs st))) = features st
    /\ forall i now,
         nth_error reqs i = Some (now, GET_shelters) ->
         nth_error (fst (fst (run env reqs st))) i = Some (listShelters (features st)).
Proof.
  intros env reqs. induction reqs as [|[now req] rest IH]; intros st H.
  - split; [reflexivity|]. intros [|i] now Hi; discriminate Hi.
  - assert (Hreq : notProduction env = false \/ notPost req = true).
    { destruct H as [H|H]; [left; exact H|right].
      simpl in H. apply andb_prop in H. tauto. }
    assert (Hrest : notProduction env = false
                    \/ forallb (fun r => notPost (snd r)) rest = true).
    { destruct H as [H|H]; [left; exact H|right].
      simpl in H. apply andb_prop in H. tauto. }
    pose proof (handle_features env now req st Hreq) as Hf.
    cbn [run].
    destruct (handle env now req st) as [[res st1] calls] eqn:Hh.
    specialize (IH st1 Hrest).
    destruct (run env rest st1) as [[ress st2] calls'] eqn:Hr.
    cbn [fst snd] in *. destruct IH as [IH1 IH2]. split.
    + congruence.
    + intros [|i] now' Hi.
      * cbn [nth_error] in *. injection Hi as -> ->.
        pose proof (handle_listShelters env now' st) as E. rewrite Hh in E.
        cbn [fst] in E. congruence.
      * cbn [nth_error] in *. rewrite (IH2 i now' Hi). congruence.
Qed.

Lemma C6_witness :
  features (snd (fst (run prodEnv
     [(0, POST_shelters (Some newShelter)); (1, GET_shelters)] initialState)))
  = features initialState
  /\ forall i now,
       nth_error [(0, POST_shelters (Some newShelter)); (1, GET_shelters)] i
       = Some (now, GET_shelters) ->
       nth_error (fst (fst (run prodEnv
          [(0, POST_shelters (Some newShelter)); (1, GET_shelters)] initialState))) i
       = Some (listShelters (features initialState)).
Proof.
  apply (C6_shelters_static_in_production prodEnv
           [(0, POST_shelters (Some newShelter)); (1, GET_shelters)] initialState).
  left. reflexivity.
Defined.

(** Outside production the shelters do change: after POST /api/shelters
    with a valid body, GET /api/shelters answers with four shelters, not
    with the three the gateway started with. *)
Lemma C6_counterexample :
  nth_error (fst (fst (run devEnv
     [(0, GET_shelters); (1, POST_shelters (Some newShelter)); (2, GET_shelters)]
     initialState))) 0
  = Some (listShelters initialFeatures)
  /\ nth_error (fst (fst (run devEnv
     [(0, GET_shelters); (1, POST_shelters (Some newShelter)); (2, GET_shelters)]
     initialState))) 2
  = Some (listShelters (initialFeatures ++ [feature (JStr "Depot") 1000 (-500)]))
  /\ listShelters (initialFeatures ++ [feature (JStr "Depot") 1000 (-500)])
     <> listShelters initialFeatures.
Proof.
  split; [reflexivity|]. split; [reflexivity|].
  intros H. unfold listShelters, json200, shelters, initialFeatures in H.
  simpl app in H. discriminate H.
Qed.

End Shelters.

(* ===================================================================== *)
(** * The cache key                                                       *)
(* ===================================================================== *)

Section CacheKey.
Import JS Backend.

Definition chars (s : string) : list ascii := list_ascii_of_string s.

Definition bar : ascii := "|"%char.

Lemma trimStart_keeps c s :
  isWhiteSpace c = false -> In c (chars s) -> In c (chars (trimStart s)).
Proof.
  intros Hc. induction s as [|a s IH]; cbn [trimStart]; [tauto|].
  intros Hin. destruct (isWhiteSpace a) eqn:Ha; [|exact Hin].
  destruct Hin as [->|Hin]; [congruence|]. apply IH. exact Hin.
Qed.

Lemma trimEnd_keeps c s :
  isWhiteSpace c = false -> In c (chars s) -> In c (chars (trimEnd s)).
Proof.
  intros Hc. induction s as [|a s IH]; cbn [trimEnd]; [tauto|].
  intros [->|Hin].
  - destruct (trimEnd s); [rewrite Hc|]; left; reflexivity.
  - specialize (IH Hin). destruct (trimEnd s) as [|b r]; [destruct IH|].
    right. exact IH.
Qed.

Lemma trim_keeps c s :
  isWhiteSpace c = false -> In c (chars s) -> In c (chars (trim s)).
Proof. intros Hc Hin. apply trimEnd_keeps, trimStart_keeps; assumption. Qed.

(** Reading digits stops at or before a character that is not a digit. *)
Lemma digits_keeps base c s : forall acc n,
  digit base c = None -> In c (chars s) ->
  In c (chars (snd (digits base s acc n))).
Proof.
  induction s as [|a s IH]; intros acc n Hc Hin; cbn [digits]; [exact Hin|].
  destruct (digit base a) as [v|] eqn:Ha; [|exact Hin].
  destruct Hin as [->|Hin]; [congruence|]. apply IH; assumption.
Qed.

Lemma digits_rest_bar base s acc n :
  digit base bar = None -> In bar (chars s) ->
  exists v k a r, digits base s acc n = (v, k, String a r).
Proof.
  intros Hd Hin. pose proof (digits_keeps base bar s acc n Hd Hin) as H.
  destruct (digits base s acc n) as [[v k] r]. cbn [snd] in H.
  destruct r as [|a r]; [destruct H|]. eauto.
Qed.

Lemma sign_keeps s : In bar (chars s) -> In bar (chars (snd (sign s))).
Proof.
  destruct s as [|a s]; [tauto|]. intros Hin. unfold sign.
  destruct (Ascii.eqb_spec a "+") as [->|Hp].
  - destruct Hin as [H|H]; [discriminate H|exact H].
  - destruct (Ascii.eqb_spec a "-") as [->|Hm].
    + destruct Hin as [H|H]; [discriminate H|exact H].
    + destruct a as [[] [] [] [] [] [] [] []]; try exact Hin; congruence.
Qed.

Lemma exponentPart_bar s : In bar (chars s) -> exponentPart s = None.
Proof.
  destruct s as [|c s]; [intros []|]. intros Hin. cbn [exponentPart].
  destruct (Ascii.eqb c "e" || Ascii.eqb c "E") eqn:He; [|reflexivity].
  assert (Hs : In bar (chars s)).
  { destruct Hin as [->|H]; [discriminate He|exact H]. }
  pose proof (sign_keeps s Hs) as Hs1. destruct (sign s) as [neg s1]. cbn [snd] in Hs1.
  destruct (digits_rest_bar 10 s1 0 0 eq_refl Hs1) as (v & k & a & r & ->).
  reflexivity.
Qed.

Lemma unsignedDecimal_bar neg s : In bar (chars s) -> unsignedDecimal neg s = None.
Proof.
  intros Hin. unfold unsignedDecimal.
  pose proof (digits_keeps 10 bar s 0 0 eq_refl Hin) as H1.
  destruct (digits 10 s 0 0) as [[ip ni] s1]. cbn [snd] in H1.
  assert (H2 : forall m nf s2,
             match s1 with
             | String "." s1' => digits 10 s1' ip 0
             | _ => (ip, 0, s1)
             end = (m, nf, s2) -> In bar (chars s2)).
  { intros m nf s2 E. destruct s1 as [|a s1']; [destruct H1|].
    destruct (Ascii.eqb_spec a ".") as [->|Hn].
    - destruct H1 as [H1|H1]; [discriminate H1|].
      pose proof (digits_keeps 10 bar s1' ip 0 eq_refl H1) as H.
      rewrite E in H. exact H.
    - assert (E' : (ip, 0, String a s1') = (m, nf, s2)).
      { destruct a as [[] [] [] [] [] [] [] []]; try exact E; congruence. }
      injection E' as _ _ <-. exact H1. }
  destruct (match s1 with
            | String "." s1' => digits 10 s1' ip 0
            | _ => (ip, 0, s1)
            end) as [[m nf] s2].
  rewrite (exponentPart_bar s2 (H2 m nf s2 eq_refl)).
  destruct ((0 <? ni) || _); reflexivity.
Qed.

Lemma nonDecimal_bar s : In bar (chars s) -> nonDecimal s = None.
Proof.
  intros Hin. unfold nonDecimal.
  destruct s as [|a [|p s']]; [reflexivity| |].
  { destruct a as [[] [] [] [] [] [] [] []]; reflexivity. }
  destruct (Ascii.eqb_spec a "0") as [->|Hn].
  2:{ destruct a as [[] [] [] [] [] [] [] []]; try reflexivity; congruence. }
  set (base := if Ascii.eqb p "x" || Ascii.eqb p "X" then 16
               else if Ascii.eqb p "o" || Ascii.eqb p "O" then 8
               else if Ascii.eqb p "b" || Ascii.eqb p "B" then 2 else 0).
  destruct (base =? 0) eqn:Hb; [reflexivity|].
  assert (Hp : p <> bar).
  { intros ->. subst base. discriminate Hb. }
  assert (Hs' : In bar (chars s')).
  { destruct Hin as [H|[H|H]]; [discriminate H|congruence|exact H]. }
  assert (Hd : digit base bar = None).
  { subst base.
    destruct (Ascii.eqb p "x" || Ascii.eqb p "X"); [reflexivity|].
    destruct (Ascii.eqb p "o" || Ascii.eqb p "O"); [reflexivity|].
    destruct (Ascii.eqb p "b" || Ascii.eqb p "B"); [reflexivity|discriminate Hb]. }
  destruct (digits_rest_bar base s' 0 0 Hd Hs') as (v & k & c & r & ->).
  reflexivity.
Qed.

Lemma StringToNumber_bar s : In bar (chars s) -> StringToNumber s = S754_nan.
Proof.
  intros Hin. unfold StringToNumber.
  pose proof (trim_keeps bar s eq_refl Hin) as Ht.
  destruct (trim s) as [|a r] eqn:E; [destruct Ht|].
  rewrite (nonDecimal_bar _ Ht).
  pose proof (sign_keeps _ Ht) as Hs. destruct (sign (String a r)) as [neg s1].
  cbn [snd] in Hs.
  destruct (String.eqb_spec s1 "Infinity") as [->|_].
  - exfalso. cbn in Hs. repeat (destruct Hs as [Hs|Hs]; [discriminate Hs|]). exact Hs.
  - rewrite (unsignedDecimal_bar neg s1 Hs). reflexivity.
Qed.

Lemma split_keeps c s :
  c <> ","%char -> In c (chars s) -> exists p, In p (split "," s) /\ In c (chars p).
Proof.
  intros Hc. induction s as [|a s IH]; [intros []|].
  intros Hin. cbn [split].
  destruct (Ascii.eqb_spec a ",") as [->|Hn].
  - destruct Hin as [H|H]; [congruence|].
    destruct (IH H) as (p & Hp & Hcp). exists p. split; [right; exact Hp|exact Hcp].
  - destruct (split "," s) as [|h t] eqn:Es.
    + exists (String a ""). split; [left; reflexivity|].
      destruct Hin as [H|H]; [left; exact H|].
      destruct (IH H) as (p & [] & _).
    + destruct Hin as [H|H].
      * exists (String a h). split; [left; reflexivity|left; exact H].
      * destruct (IH H) as (p & [<-|Hp] & Hcp).
        -- exists (String a h). split; [left; reflexivity|right; exact Hcp].
        -- exists p. split; [right; exact Hp|exact Hcp].
Qed.

(** A string that the validator accepts holds no ["|"]. *)
Lemma valid_no_bar s : isValidLonLatPair (QString s) = true -> ~ In bar (chars s).
Proof.
  intros Hv Hin. unfold isValidLonLatPair in Hv.
  destruct (String.eqb s ""); [discriminate Hv|].
  destruct (split_keeps bar s ltac:(discriminate) Hin) as (p & Hp & Hcp).
  destruct (split "," s) as [|p0 [|p1 [|p2 l]]]; try discriminate Hv.
  cbn [map] in Hv. cbv beta iota zeta in Hv.
  assert (Hnan : Number (trim p) = nan).
  { unfold Number. rewrite StringToNumber_bar; [reflexivity|].
    apply trim_keeps; [reflexivity|exact Hcp]. }
  destruct Hp as [<-|[<-|[]]]; rewrite Hnan in Hv; cbn in Hv;
    [discriminate Hv|].
  rewrite orb_true_r in Hv. discriminate Hv.
Qed.

Lemma key_split s1 e1 s2 e2 :
  ~ In bar (chars s1) -> ~ In bar (chars s2) ->
  s1 ++ "|" ++ e1 = s2 ++ "|" ++ e2 -> s1 = s2 /\ e1 = e2.
Proof.
  revert s2. induction s1 as [|a s1 IH]; intros [|b s2] H1 H2 E.
  - change (String bar e1 = String bar e2) in E. injection E as E. auto.
  - change (String bar e1 = String b (s2 ++ "|" ++ e2)) in E. injection E as Eb _.
    exfalso. apply H2. left. symmetry. exact Eb.
  - change (String a (s1 ++ "|" ++ e1) = String bar e2) in E. injection E as Ea _.
    exfalso. apply H1. left. exact Ea.
  - change (String a (s1 ++ "|" ++ e1) = String b (s2 ++ "|" ++ e2)) in E.
    injection E as Eab E.
    destruct (IH s2) as [Es Ee]; [| |exact E|].
    + intros H. apply H1. right. exact H.
    + intros H. apply H2. right. exact H.
    + split; congruence.
Qed.

(** The cache key determines the pair: two valid pairs with one key are
    the same pair. *)
Lemma cacheKey_inj s1 e1 s2 e2 :
  isValidLonLatPair (QString s1) = true -> isValidLonLatPair (QString s2) = true ->
  s1 ++ "|" ++ e1 = s2 ++ "|" ++ e2 -> s1 = s2 /\ e1 = e2.
Proof.
  intros H1 H2. apply key_split; apply valid_no_bar; assumption.
Qed.
End CacheKey.

(* ===================================================================== *)
(** * The route handler and its cache                                     *)
(* ===================================================================== *)

Section RouteCache.
Import JS Backend.

Definition fromCacheBody (b : bool) (data : json) : json :=
  JObj [("fromCache", JBool b); ("data", data)].

Lemma valid_not_falsy s : isValidLonLatPair (QString s) = true -> qfalsy (QString s) = false.
Proof. unfold isValidLonLatPair, qfalsy. destruct (String.eqb s ""); congruence. Qed.

(** Past the credential and the validation the handler looks the pair up
    and, without a truthy cached value, calls the provider. *)
Lemma route_valid env now done s e upstream cache :
  noKey env = false ->
  isValidLonLatPair (QString s) = true -> isValidLonLatPair (QString e) = true ->
  route env now done (QString s) (QString e) upstream cache
  = let '(cached, cache1) := cacheGet now (s ++ "|" ++ e) cache in
    if truthy_opt cached then
      (json200 (fromCacheBody true match cached with Some d => d | None => JNull end),
       cache1, [])
    else
      let call := {| callStart := s; callEnd := e |} in
      match upstream with
      | NotOk st text =>
          (jsonStatus st (JObj [("error", JStr "OpenRouteService error");
                                ("details", JStr text)]), cache1, [call])
      | Ok data =>
          (json200 (fromCacheBody false data),
           cacheSet (ROUTE_CACHE_TTL_SECONDS env) done (s ++ "|" ++ e) data cache1, [call])
      | Rejects message =>
          (jsonStatus 500 (JObj [("error", JStr "Failed to fetch route");
                                 ("details", JStr message)]), cache1, [call])
      end.
Proof.
  intros Hkey Hs He. unfold route.
  rewrite Hkey, (valid_not_falsy _ Hs), (valid_not_falsy _ He), Hs, He.
  reflexivity.
Qed.

(** A stored entry that [get] still returns at time [now]. *)
Definition live (now : Z) (d : Entry) : Prop := t d = 0 \/ now <= t d.

Lemma cacheGet_live now key (cache : gmap string Entry) d :
  cache !! key = Some d -> live now d -> cacheGet now key cache = (Some (v d), cache).
Proof.
  intros Hd Hl. unfold cacheGet. rewrite Hd.
  destruct Hl as [H0|Hle].
  - rewrite H0. reflexivity.
  - replace (t d <? now) with false by (symmetry; apply Z.ltb_ge; exact Hle).
    rewrite andb_false_r. reflexivity.
Qed.

Lemma cacheGet_stale now key (cache : gmap string Entry) d :
  cache !! key = Some d -> t d <> 0 -> t d < now ->
  cacheGet now key cache = (None, delete key cache).
Proof.
  intros Hd H0 Hlt. unfold cacheGet. rewrite Hd.
  apply Z.eqb_neq in H0. apply Z.ltb_lt in Hlt. rewrite H0, Hlt. reflexivity.
Qed.

Lemma route_hit env now done s e upstream (cache : gmap string Entry) d :
  noKey env = false ->
  isValidLonLatPair (QString s) = true -> isValidLonLatPair (QString e) = true ->
  cache !! (s ++ "|" ++ e) = Some d -> live now d -> truthy (v d) = true ->
  route env now done (QString s) (QString e) upstream cache
  = (json200 (fromCacheBody true (v d)), cache, []).
Proof.
  intros Hkey Hs He Hd Hl Ht. rewrite route_valid by assumption.
  rewrite (cacheGet_live _ _ _ _ Hd Hl). cbn [truthy_opt]. rewrite Ht. reflexivity.
Qed.

Lemma route_miss_ok env now done s e data (cache : gmap string Entry) :
  noKey env = false ->
  isValidLonLatPair (QString s) = true -> isValidLonLatPair (QString e) = true ->
  truthy_opt (fst (cacheGet now (s ++ "|" ++ e) cache)) = false ->
  route env now done (QString s) (QString e) (Ok data) cache
  = (json200 (fromCacheBody false data),
     cacheSet (ROUTE_CACHE_TTL_SECONDS env) done (s ++ "|" ++ e) data
       (snd (cacheGet now (s ++ "|" ++ e) cache)),
     [{| callStart := s; callEnd := e |}]).
Proof.
  intros Hkey Hs He Hm. rewrite route_valid by assumption.
  destruct (cacheGet now (s ++ "|" ++ e) cache) as [cached cache1].
  cbn [fst snd] in *. rewrite Hm. reflexivity.
Qed.

Lemma route_miss_calls env now done s e upstream (cache : gmap string Entry) :
  noKey env = false ->
  isValidLonLatPair (QString s) = true -> isValidLonLatPair (QString e) = true ->
  truthy_opt (fst (cacheGet now (s ++ "|" ++ e) cache)) = false ->
  snd (route env now done (QString s) (QString e) upstream cache)
  = [{| callStart := s; callEnd := e |}].
Proof.
  intros Hkey Hs He Hm. rewrite route_valid by assumption.
  destruct (cacheGet now (s ++ "|" ++ e) cache) as [cached cache1].
  cbn [fst snd] in *. rewrite Hm. destruct upstream; reflexivity.
Qed.

Lemma cacheSet_lookup ttl now key value (c : gmap string Entry) :
  0 < ttl ->
  cacheSet ttl now key value c !! key = Some {| v := value; t := now + ttl * 1000 |}.
Proof.
  intros H. unfold cacheSet. rewrite lookup_insert_eq.
  replace (ttl =? 0) with false by (symmetry; apply Z.eqb_neq; lia). reflexivity.
Qed.

(** A request for another pair leaves the entry of this pair alone. *)
Lemma route_other_key env now done start end_ upstream (cache : gmap string Entry) key :
  (forall s e, start = QString s -> end_ = QString e -> s ++ "|" ++ e <> key) ->
  snd (fst (route env now done start end_ upstream cache)) !! key = cache !! key.
Proof.
  intros Hk. unfold route.
  destruct (noKey env); [reflexivity|].
  destruct (qfalsy start || qfalsy end_); [reflexivity|].
  destruct (negb (isValidLonLatPair start) || negb (isValidLonLatPair end_));
    [reflexivity|].
  destruct start as [|s| |]; try reflexivity.
  destruct end_ as [|e| |]; try reflexivity.
  specialize (Hk s e eq_refl eq_refl).
  assert (Hget : snd (cacheGet now (s ++ "|" ++ e) cache) !! key = cache !! key).
  { unfold cacheGet. destruct (cache !! (s ++ "|" ++ e)) as [d|]; [|reflexivity].
    destruct (negb (t d =? 0) && (t d <? now)); [|reflexivity].
    cbn [snd]. apply lookup_delete_ne. exact Hk. }
  destruct (cacheGet now (s ++ "|" ++ e) cache) as [cached cache1]. cbn [snd] in Hget.
  destruct (truthy_opt cached); [exact Hget|].
  destruct upstream; cbn [fst snd]; try exact Hget.
  unfold cacheSet. rewrite lookup_insert_ne by exact Hk. exact Hget.
Qed.

(** C3, as the handler has it.  With a credential configured, a valid start
    and end and a positive time-to-live (30 s by default): a request that
    finds no truthy value cached for the pair calls the provider once; when
    the provider answers [data], the answer is sent tagged
    [fromCache: false] and stored under the key made of the two strings,
    stamped with the time of storing plus the time-to-live.  While a truthy
    [data] is stored for the pair and its stamp has not passed, a request
    for the pair is answered with [data] tagged [fromCache: true], without
    a call of the provider and whatever the provider would answer.  Once
    the stamp has passed, a request for the pair calls the provider again
    and its answer is tagged [fromCache: false].  The key stands for the
    pair: no other valid pair has it, and a request for another pair leaves
    the stored answer in place. *)
Theorem C3_route_cache :
  forall env s e,
    noKey env = false ->
    isValidLonLatPair (QString s) = true -> isValidLonLatPair (QString e) = true ->
    let ttl := ROUTE_CACHE_TTL_SECONDS env in
    let key := s ++ "|" ++ e in
    let call := {| callStart := s; callEnd := e |} in
    0 < ttl ->
    (forall now done upstream (cache : gmap string Entry),
       truthy_opt (fst (cacheGet now key cache)) = false ->
       snd (route env now done (QString s) (QString e) upstream cache) = [call]
       /\ forall data,
            upstream = Ok data ->
            exists cache1,
              route env now done (QString s) (QString e) upstream cache
              = (json200 (fromCacheBody false data), cache1, [call])
              /\ cache1 !! key = Some {| v := data; t := done + ttl * 1000 |})
    /\ (forall now done upstream (cache : gmap string Entry) data done0,
         cache !! key = Some {| v := data; t := done0 + ttl * 1000 |} ->
         truthy data = true ->
         now <= done0 + ttl * 1000 ->
         route env now done (QString s) (QString e) upstream cache
         = (json200 (fromCacheBody true data), cache, []))
    /\ (forall now done upstream (cache : gmap string Entry) data done0,
         cache !! key = Some {| v := data; t := done0 + ttl * 1000 |} ->
         0 <= done0 ->
         done0 + ttl * 1000 < now ->
         snd (route env now done (QString s) (QString e) upstream cache) = [call]
         /\ forall data1,
              upstream = Ok data1 ->
              fst (fst (route env now done (QString s) (QString e) upstream cache))
              = json200 (fromCacheBody false data1))
    /\ (forall s' e' now done upstream (cache : gmap string Entry),
         isValidLonLatPair (QString s') = true ->
         isValidLonLatPair (QString e') = true ->
         (s', e') <> (s, e) ->
         s' ++ "|" ++ e' <> key
         /\ snd (fst (route env now done (QString s') (QString e') upstream cache)) !! key
            = cache !! key).
Proof.
  intros env s e Hkey Hs He ttl key call Httl.
  assert (Hmiss : forall now done upstream (cache : gmap string Entry),
     truthy_opt (fst (cacheGet now key cache)) = false ->
     snd (route env now done (QString s) (QString e) upstream cache) = [call]
     /\ forall data,
          upstream = Ok data ->
          exists cache1,
            route env now done (QString s) (QString e) upstream cache
            = (json200 (fromCacheBody false data), cache1, [call])
            /\ cache1 !! key = Some {| v := data; t := done + ttl * 1000 |}).
  { intros now done upstream cache Hm. split.
    - apply route_miss_calls; assumption.
    - intros data ->. eexists. split; [apply route_miss_ok; assumption|].
      apply cacheSet_lookup. exact Httl. }
  split; [exact Hmiss|]. split; [|split].
  - intros now done upstream cache data done0 Hd Ht Hle.
    apply (route_hit env now done s e upstream cache _ Hkey Hs He Hd);
      [right; exact Hle | exact Ht].
  - intros now done upstream cache data done0 Hd H0 Hlt.
    assert (Hm : truthy_opt (fst (cacheGet now key cache)) = false).
    { rewrite (cacheGet_stale now key cache _ Hd); cbn [t]; [reflexivity|lia|lia]. }
    destruct (Hmiss now done upstream cache Hm) as [Hc Hok].
    split; [exact Hc|]. intros data1 E.
    destruct (Hok data1 E) as (cache1 & -> & _). reflexivity.
  - intros s' e' now done upstream cache Hs' He' Hne.
    assert (Hk : s' ++ "|" ++ e' <> key).
    { intros E. apply Hne.
      destruct (cacheKey_inj s' e' s e Hs' Hs E) as [-> ->]. reflexivity. }
    split; [exact Hk|].
    apply route_other_key. intros s0 e0 E1 E2.
    injection E1 as <-. injection E2 as <-. exact Hk.
Qed.

Definition cityHall : string := "77.5933,12.9721".
Definition communityCenter : string := "77.5980,12.9755".

Lemma C3_witness :
  ROUTE_CACHE_TTL_SECONDS envWithKey = 30
  /\ (exists cache1,
        route envWithKey 1000 1200 (QString cityHall) (QString communityCenter)
              (Ok (JObj [])) ∅
        = (json200 (fromCacheBody false (JObj [])), cache1,
           [{| callStart := cityHall; callEnd := communityCenter |}])
        /\ cache1 !! (cityHall ++ "|" ++ communityCenter)
           = Some {| v := JObj []; t := 1200 + 30 * 1000 |})
  /\ (forall (cache : gmap string Entry) upstream,
        cache !! (cityHall ++ "|" ++ communityCenter)
        = Some {| v := JObj []; t := 1200 + 30 * 1000 |} ->
        route envWithKey 31200 31300 (QString cityHall) (QString communityCenter)
              upstream cache
        = (json200 (fromCacheBody true (JObj [])), cache, [])
        /\ snd (route envWithKey 31201 31300 (QString cityHall) (QString communityCenter)
                      upstream cache)
           = [{| callStart := cityHall; callEnd := communityCenter |}]).
Proof.
  destruct (C3_route_cache envWithKey cityHall communityCenter
              eq_refl eq_refl eq_refl eq_refl) as (Hmiss & Hhit & Hexp & _).
  split; [reflexivity|]. split.
  - destruct (Hmiss 1000 1200 (Ok (JObj [])) ∅) as [_ H];
      [vm_compute; reflexivity|].
    apply (H (JObj []) eq_refl).
  - intros cache upstream Hc. split.
    + apply (Hhit 31200 31300 upstream cache (JObj []) 1200 Hc eq_refl). discriminate.
    + apply (Hexp 31201 31300 upstream cache (JObj []) 1200 Hc); [discriminate|reflexivity].
Defined.

(** A provider that answers a falsy document, here [null], is asked again
    on the next request for the same pair, well inside the time-to-live:
    [null] is stored, but the handler takes a falsy cached value for a
    miss.  The second answer is tagged [fromCache: false]. *)
Lemma C3_counterexample :
  exists cache1 cache2,
    route envWithKey 1000 1200 (QString cityHall) (QString communityCenter)
          (Ok JNull) ∅
    = (json200 (fromCacheBody false JNull), cache1,
       [{| callStart := cityHall; callEnd := communityCenter |}])
    /\ cache1 !! (cityHall ++ "|" ++ communityCenter)
       = Some {| v := JNull; t := 1200 + 30 * 1000 |}
    /\ route envWithKey 2000 2200 (QString cityHall) (QString communityCenter)
             (Ok JNull) cache1
       = (json200 (fromCacheBody false JNull), cache2,
          [{| callStart := cityHall; callEnd := communityCenter |}]).
Proof.
  eexists. eexists. split; [|split].
  - rewrite route_miss_ok by reflexivity. reflexivity.
  - apply cacheSet_lookup. reflexivity.
  - rewrite route_miss_ok;
      [reflexivity | reflexivity | reflexivity | reflexivity |].
    rewrite (cacheGet_live _ _ _ {| v := JNull; t := 1200 + 30 * 1000 |});
      [reflexivity | apply cacheSet_lookup; reflexivity |].
    right. cbn [t]. lia.
Qed.

End RouteCache.

(* ===================================================================== *)
(** * The rate limiter in front of the route handler                      *)
(* ===================================================================== *)

Section RateLimit.
Import JS Backend.

Definition responses (env : Env) (reqs : list (Z * Request)) (st : State) : list Response :=
  fst (fst (run env reqs st)).

Definition stateAfter (env : Env) (reqs : list (Z * Request)) (st : State) : State :=
  snd (fst (run env reqs st)).

Lemma stateAfter_cons env now req rest st :
  stateAfter env ((now, req) :: rest) st
  = stateAfter env rest (snd (fst (handle env now req st))).
Proof.
  unfold stateAfter. cbn [run].
  destruct (handle env now req st) as [[res st1] calls]. cbn [fst snd].
  destruct (run env rest st1) as [[ress st2] calls']. reflexivity.
Qed.

Lemma responses_cons env now req rest st :
  responses env ((now, req) :: rest) st
  = fst (fst (handle env now req st))
    :: responses env rest (snd (fst (handle env now req st))).
Proof.
  unfold responses. cbn [run].
  destruct (handle env now req st) as [[res st1] calls]. cbn [fst snd].
  destruct (run env rest st1) as [[ress st2] calls']. reflexivity.
Qed.

(** The answer to the request at position [k] is the answer of [handle] in
    the state the requests before it have left. *)
Lemma responses_nth env reqs : forall st k now req,
  nth_error reqs k = Some (now, req) ->
  nth_error (responses env reqs st) k
  = Some (fst (fst (handle env now req (stateAfter env (firstn k reqs) st)))).
Proof.
  induction reqs as [|[now0 req0] rest IH]; intros st [|k] now req Hk;
    try discriminate Hk.
  - cbn in Hk. injection Hk as -> ->. rewrite responses_cons. reflexivity.
  - cbn [nth_error] in Hk. rewrite responses_cons. cbn [nth_error firstn].
    rewrite stateAfter_cons. apply IH. exact Hk.
Qed.

(** A route request of the client [ip]. *)
Definition routeFrom (ip : string) (r : Z * Request) : bool :=
  match snd r with
  | GET_route ip' _ _ _ _ => String.eqb ip ip'
  | _ => false
  end.

(** Route requests of [ip] among the first [k] requests. *)
Definition hitsBefore (ip : string) (reqs : list (Z * Request)) (k : nat) : nat :=
  length (List.filter (routeFrom ip) (firstn k reqs)).

(** The limiter's record of [ip] after [n] of its requests in a window
    that opened at or after [t1]: none that is still open when [n = 0],
    else [n] hits in a window that ends at or after [t1 + windowMs]. *)
Definition counted (ip : string) (t1 : Z) (n : nat) (st : State) : Prop :=
  match n with
  | O => forall w, hits st !! ip = Some w -> resetTime w <= t1
  | S _ => exists w, hits st !! ip = Some w /\ totalHits w = Z.of_nat n
                     /\ t1 + windowMs <= resetTime w
  end.

Lemma handle_hits_other env now req st ip :
  routeFrom ip (now, req) = false ->
  hits (snd (fst (handle env now req st))) !! ip = hits st !! ip.
Proof.
  intros H. destruct req as [| |reqBody|ip' start end_ upstream done]; try reflexivity.
  - unfold handle. destruct (notProduction env); [|reflexivity].
    destruct (postShelters reqBody (features st)). reflexivity.
  - unfold routeFrom in H. cbn [snd] in H. apply String.eqb_neq in H.
    unfold handle, routeLimiter, rateLimit, increment. cbv beta iota zeta.
    set (w := match hits st !! ip' with
              | Some w => if now <? resetTime w
                          then {| totalHits := totalHits w + 1; resetTime := resetTime w |}
                          else {| totalHits := 1; resetTime := now + windowMs |}
              | None => {| totalHits := 1; resetTime := now + windowMs |}
              end).
    destruct (max <? totalHits w).
    + cbn [fst snd hits]. apply lookup_insert_ne. congruence.
    + destruct (route env now done start end_ upstream (routeCache st)) as [[res c] calls].
      cbn [fst snd hits]. apply lookup_insert_ne. congruence.
Qed.

(** One route request of [ip] inside the window: the hit is counted, and
    the request reaches the handler exactly when it is not beyond the
    ceiling. *)
Lemma handle_route_counted env ip t1 n now start end_ upstream done st :
  counted ip t1 n st -> t1 <= now < t1 + windowMs ->
  counted ip t1 (S n) (snd (fst (handle env now (GET_route ip start end_ upstream done) st)))
  /\ exists hits',
       handle env now (GET_route ip start end_ upstream done) st
       = if (n <? 60)%nat
         then let '(res, c, calls) :=
                route env now done start end_ upstream (routeCache st) in
              (res, {| features := features st; routeCache := c; hits := hits' |}, calls)
         else (tooManyRequests,
               {| features := features st; routeCache := routeCache st; hits := hits' |},
               []).
Proof.
  intros Hc Ht. unfold handle, routeLimiter, rateLimit, increment. cbv beta iota zeta.
  set (w := match hits st !! ip with
            | Some w => if now <? resetTime w
                        then {| totalHits := totalHits w + 1; resetTime := resetTime w |}
                        else {| totalHits := 1; resetTime := now + windowMs |}
            | None => {| totalHits := 1; resetTime := now + windowMs |}
            end).
  assert (Hw : totalHits w = Z.of_nat (S n) /\ t1 + windowMs <= resetTime w).
  { subst w. destruct n as [|n]; cbn [counted] in Hc.
    - destruct (hits st !! ip) as [w0|] eqn:E; cbn [totalHits resetTime]; [|lia].
      specialize (Hc w0 eq_refl).
      replace (now <? resetTime w0) with false by (symmetry; apply Z.ltb_ge; lia).
      cbn [totalHits resetTime]. lia.
    - destruct Hc as (w0 & E & Hh & Hr). rewrite E.
      replace (now <? resetTime w0) with true by (symmetry; apply Z.ltb_lt; lia).
      cbn [totalHits resetTime]. lia. }
  destruct Hw as [Hh Hr]. split.
  - assert (Hl : (<[ip := w]> (hits st) : gmap string Window) !! ip = Some w)
      by apply lookup_insert_eq.
    destruct (max <? totalHits w).
    + cbn [fst snd counted hits]. exists w. auto.
    + destruct (route env now done start end_ upstream (routeCache st)) as [[res c] calls].
      cbn [fst snd counted hits]. exists w. auto.
  - exists (<[ip := w]> (hits st)).
    destruct (n <? 60)%nat eqn:En.
    + apply Nat.ltb_lt in En.
      replace (max <? totalHits w) with false
        by (symmetry; apply Z.ltb_ge; unfold max; lia).
      reflexivity.
    + apply Nat.ltb_ge in En.
      replace (max <? totalHits w) with true
        by (symmetry; apply Z.ltb_lt; unfold max; lia).
      reflexivity.
Qed.

Lemma counted_other env ip t1 n now req st :
  routeFrom ip (now, req) = false -> counted ip t1 n st ->
  counted ip t1 n (snd (fst (handle env now req st))).
Proof.
  intros H Hc. pose proof (handle_hits_other env now req st ip H) as E.
  destruct n; cbn [counted] in *; rewrite E; exact Hc.
Qed.

Lemma hitsBefore_cons ip r rest k :
  hitsBefore ip (r :: rest) (S k)
  = ((if routeFrom ip r then 1 else 0) + hitsBefore ip rest k)%nat.
Proof.
  unfold hitsBefore. cbn [firstn List.filter]. destruct (routeFrom ip r); reflexivity.
Qed.

Lemma counted_prefix env ip t1 reqs : forall st n k,
  counted ip t1 n st ->
  Forall (fun r => t1 <= fst r < t1 + windowMs) reqs ->
  counted ip t1 (n + hitsBefore ip reqs k) (stateAfter env (firstn k reqs) st).
Proof.
  induction reqs as [|[now req] rest IH]; intros st n k Hc Hin.
  - destruct k; cbn; rewrite Nat.add_0_r; exact Hc.
  - destruct k as [|k]; [cbn; rewrite Nat.add_0_r; exact Hc|].
    apply Forall_cons_iff in Hin as [Hnow Hin]. cbn [fst] in Hnow.
    rewrite hitsBefore_cons. cbn [firstn]. rewrite stateAfter_cons.
    destruct (routeFrom ip (now, req)) eqn:Hr.
    + destruct req as [| |reqBody|ip' start end_ upstream done]; try discriminate Hr.
      unfold routeFrom in Hr. cbn [snd] in Hr. apply String.eqb_eq in Hr. subst ip'.
      replace (n + (1 + hitsBefore ip rest k))%nat
        with (S n + hitsBefore ip rest k)%nat by lia.
      apply IH; [|exact Hin].
      apply (handle_route_counted env ip t1 n now start end_ upstream done st Hc Hnow).
    + cbn [Nat.add]. apply IH; [|exact Hin].
      apply counted_other; assumption.
Qed.

(** C5.  A client without an open window at time [t1] sends requests, mixed
    with any other requests to the gateway, all within [windowMs] (15
    minutes) from [t1].  A route request of the client that has fewer than
    60 route requests of the client before it goes to the route handler and
    is answered by it; one that has 60 or more before it is answered 429 by
    the limiter, the handler is not run, no provider call is made and the
    cache is left as it is, whatever the cache holds for the pair. *)
Theorem C5_rate_limit :
  forall env ip t1 reqs st,
    (forall w, hits st !! ip = Some w -> resetTime w <= t1) ->
    Forall (fun r => t1 <= fst r < t1 + windowMs) reqs ->
    forall k now start end_ upstream done,
      nth_error reqs k = Some (now, GET_route ip start end_ upstream done) ->
      let stk := stateAfter env (firstn k reqs) st in
      let n := hitsBefore ip reqs k in
      exists hits',
        nth_error (responses env reqs st) k
        = Some (fst (fst (handle env now (GET_route ip start end_ upstream done) stk)))
        /\ ((n < 60)%nat ->
            handle env now (GET_route ip start end_ upstream done) stk
            = let '(res, c, calls) :=
                route env now done start end_ upstream (routeCache stk) in
              (res, {| features := features stk; routeCache := c; hits := hits' |}, calls))
        /\ ((60 <= n)%nat ->
            handle env now (GET_route ip start end_ upstream done) stk
            = (tooManyRequests,
               {| features := features stk; routeCache := routeCache stk; hits := hits' |},
               [])).
Proof.
  intros env ip t1 reqs st Hfresh Hin k now start end_ upstream done Hk stk n.
  assert (Hc : counted ip t1 n stk).
  { apply (counted_prefix env ip t1 reqs st 0 k); assumption. }
  assert (Hnow : t1 <= now < t1 + windowMs).
  { rewrite Forall_forall in Hin.
    apply (Hin (now, GET_route ip start end_ upstream done)).
    apply list_elem_of_In. eapply nth_error_In. exact Hk. }
  destruct (handle_route_counted env ip t1 n now start end_ upstream done stk Hc Hnow)
    as [_ [hits' E]].
  exists hits'. split; [apply responses_nth; exact Hk|]. split; intros Hn.
  - rewrite E. apply Nat.ltb_lt in Hn. rewrite Hn. reflexivity.
  - rewrite E. apply Nat.ltb_ge in Hn. rewrite Hn. reflexivity.
Qed.

Definition client : string := "203.0.113.7".

(** The same route request [n] times, at time 5; the provider would answer
    in one millisecond. *)
Definition burst (n : nat) : list (Z * Request) :=
  repeat (5, GET_route client (QString cityHall) (QString communityCenter)
                       (Ok (JObj [])) 6) n.

(** Of 61 requests of one client the first is fetched, the 60th is served
    from the cache and the 61st, for the same cached pair, is answered 429. *)
Lemma C5_witness :
  nth_error (responses envWithKey (burst 61) initialState) 0
  = Some (json200 (fromCacheBody false (JObj [])))
  /\ nth_error (responses envWithKey (burst 61) initialState) 59
     = Some (json200 (fromCacheBody true (JObj [])))
  /\ nth_error (responses envWithKey (burst 61) initialState) 60
     = Some tooManyRequests.
Proof.
  assert (Hfresh : forall w, hits initialState !! client = Some w -> resetTime w <= 0).
  { intros w H. cbn [hits initialState] in H. rewrite lookup_empty in H. discriminate H. }
  assert (Hin : Forall (fun r : Z * Request => 0 <= fst r < 0 + windowMs) (burst 61)).
  { apply Forall_forall. intros r Hr. apply list_elem_of_In, repeat_spec in Hr.
    subst r. vm_compute. split; [discriminate|reflexivity]. }
  pose proof (C5_rate_limit envWithKey client 0 (burst 61) initialState Hfresh Hin) as H.
  split; [|split].
  - destruct (H 0%nat 5 (QString cityHall) (QString communityCenter) (Ok (JObj [])) 6 eq_refl)
      as (h & E & _ & _).
    rewrite E. vm_compute. reflexivity.
  - destruct (H 59%nat 5 (QString cityHall) (QString communityCenter) (Ok (JObj [])) 6 eq_refl)
      as (h & E & _ & _).
    rewrite E. vm_compute. reflexivity.
  - destruct (H 60%nat 5 (QString cityHall) (QString communityCenter) (Ok (JObj [])) 6 eq_refl)
      as (h & E & _ & E429).
    rewrite E, E429; [reflexivity|]. vm_compute. lia.
Defined.

End RateLimit.

(* ===================================================================== *)
(** * The route-request throttle                                          *)
(* ===================================================================== *)

Section Throttle.
Import Frontend.

Variable throttleMs : Z.

(** Two times at least the interval apart, the earlier first. *)
Definition apart (a b : Z) : Prop := throttleMs <= b - a.

Lemma requestRoute_granted now settled h :
  throttleMs <= now - lastReqRef h ->
  granted (fst (requestRoute throttleMs now settled h)) = true
  /\ lastReqRef (snd (requestRoute throttleMs now settled h)) = now.
Proof.
  intros H. unfold requestRoute.
  replace (now - lastReqRef h <? throttleMs) with false
    by (symmetry; apply Z.ltb_ge; exact H).
  destruct settled; split; reflexivity.
Qed.

Lemma requestRoute_denied now settled h :
  now - lastReqRef h < throttleMs ->
  requestRoute throttleMs now settled h = (Null, h).
Proof.
  intros H. unfold requestRoute.
  replace (now - lastReqRef h <? throttleMs) with true
    by (symmetry; apply Z.ltb_lt; exact H).
  reflexivity.
Qed.

Lemma granted_iff now settled h :
  granted (fst (requestRoute throttleMs now settled h)) = true
  <-> throttleMs <= now - lastReqRef h.
Proof.
  split.
  - intros H. destruct (Z_lt_le_dec (now - lastReqRef h) throttleMs) as [Hlt|Hle];
      [|exact Hle].
    rewrite (requestRoute_denied _ _ _ Hlt) in H. discriminate H.
  - intros H. apply requestRoute_granted. exact H.
Qed.

(** From any state, the stored time followed by the times of the grants is
    a chain in which each time is at least the interval after the one
    before it. *)
Lemma grants_chain calls : forall h,
  Sorted apart (lastReqRef h :: grants throttleMs calls h).
Proof.
  induction calls as [|[now settled] rest IH]; intros h; cbn [grants].
  - repeat constructor.
  - destruct (Z_lt_le_dec (now - lastReqRef h) throttleMs) as [Hlt|Hle].
    + rewrite (requestRoute_denied _ _ _ Hlt). cbn [granted]. apply IH.
    + destruct (requestRoute_granted now settled h Hle) as [Hg Hl].
      destruct (requestRoute throttleMs now settled h) as [r h1].
      cbn [fst snd] in *. rewrite Hg. specialize (IH h1). rewrite Hl in IH.
      constructor; [exact IH|]. constructor. exact Hle.
Qed.

Lemma apart_trans : 0 <= throttleMs -> Relations_1.Transitive apart.
Proof. intros H a b c Hab Hbc. unfold apart in *. lia. Qed.

End Throttle.

Section ThrottleClaim.
Import Frontend.

(** C2, as the hook has it.  A check at time [now] is granted exactly when
    [now] minus the stored time is at least the interval; a grant stores
    [now], a denied check returns [null] without an error and leaves the
    hook as it is.  The stored time starts at 0, so the first check is
    granted exactly when [now] is at least the interval.  Consecutive
    grants are at least the interval apart, and, for an interval that is
    not negative, so are any two grants.  With an interval of 4000 and a
    first check at a time of at least 4000: a second check 3999 later
    makes one permit in all, a second check 4001 later makes two. *)
Theorem C2_throttle :
  forall throttleMs,
    (forall now settled h,
       (granted (fst (requestRoute throttleMs now settled h)) = true
        <-> throttleMs <= now - lastReqRef h)
       /\ (throttleMs <= now - lastReqRef h ->
           lastReqRef (snd (requestRoute throttleMs now settled h)) = now)
       /\ (now - lastReqRef h < throttleMs ->
           requestRoute throttleMs now settled h = (Null, h)))
    /\ (forall now settled,
         granted (fst (requestRoute throttleMs now settled initialHook)) = true
         <-> throttleMs <= now)
    /\ (forall calls h,
         Sorted (apart throttleMs) (grants throttleMs calls h)
         /\ (0 <= throttleMs ->
             StronglySorted (apart throttleMs) (grants throttleMs calls h)))
    /\ (forall now s1 s2,
         4000 <= now ->
         grants 4000 [(now, s1); (now + 3999, s2)] initialHook = [now]
         /\ grants 4000 [(now, s1); (now + 4001, s2)] initialHook
            = [now; now + 4001]).
Proof.
  intros throttleMs. split; [|split; [|split]].
  - intros now settled h. split; [apply granted_iff|]. split.
    + intros H. apply requestRoute_granted. exact H.
    + apply requestRoute_denied.
  - intros now settled. rewrite granted_iff. cbn [lastReqRef initialHook].
    rewrite Z.sub_0_r. reflexivity.
  - intros calls h.
    assert (Hs : Sorted (apart throttleMs) (grants throttleMs calls h)).
    { pose proof (grants_chain throttleMs calls h) as H. inversion H. assumption. }
    split; [exact Hs|]. intros H0.
    apply Sorted_StronglySorted; [apply apart_trans; exact H0 | exact Hs].
  - intros now s1 s2 Hnow. cbn [grants].
    unfold requestRoute. cbn [lastReqRef initialHook].
    replace (now - 0 <? 4000) with false by (symmetry; apply Z.ltb_ge; lia).
    split.
    + destruct s1; cbn [granted lastReqRef];
        (replace (now + 3999 - now <? 4000) with true by (symmetry; apply Z.ltb_lt; lia));
        reflexivity.
    + destruct s1; cbn [granted lastReqRef];
        (replace (now + 4001 - now <? 4000) with false by (symmetry; apply Z.ltb_ge; lia));
        destruct s2; reflexivity.
Qed.

Definition someRoute : Route :=
  {| raw := JS.JObj []; coords := []; fromCache := false |}.

Lemma C2_witness :
  StronglySorted (apart 4000)
    (grants 4000 [(5000, Fulfilled someRoute); (6000, Fulfilled someRoute);
                  (9000, Raised "Route fetch failed"); (13000, Fulfilled someRoute)]
       initialHook)
  /\ grants 4000 [(5000, Fulfilled someRoute); (8999, Fulfilled someRoute)] initialHook
     = [5000]
  /\ grants 4000 [(5000, Fulfilled someRoute); (9001, Fulfilled someRoute)] initialHook
     = [5000; 9001].
Proof.
  split.
  - apply (C2_throttle 4000). lia.
  - apply (C2_throttle 4000 : _ /\ _ /\ _ /\
             (forall now s1 s2, 4000 <= now ->
                grants 4000 [(now, s1); (now + 3999, s2)] initialHook = [now]
                /\ grants 4000 [(now, s1); (now + 4001, s2)] initialHook
                   = [now; now + 4001])).
    lia.
Defined.

(** The stored time starts at 0, not at a state of its own: on a clock
    that reads less than the interval the first check is denied.  Checks
    at times 0 and 3999, with an interval of 4000, make no permit at all. *)
Lemma C2_counterexample :
  requestRoute 4000 0 (Fulfilled someRoute) initialHook = (Null, initialHook)
  /\ grants 4000 [(0, Fulfilled someRoute); (3999, Fulfilled someRoute)] initialHook = [].
Proof. split; reflexivity. Qed.

End ThrottleClaim.

(* ===================================================================== *)
(** * The geodesic distance                                               *)
(* ===================================================================== *)

Section Distance.
Import Frontend.
Local Open Scope R_scope.

(** The quantity [a] of [distanceMeters]: the haversine of the central
    angle between the two points. *)
Definition haversine (lat1 lon1 lat2 lon2 : R) : R :=
  sin (toRad (lat2 - lat1) / 2) ^ 2
  + cos (toRad lat1) * cos (toRad lat2) * sin (toRad (lon2 - lon1) / 2) ^ 2.

Lemma distanceMeters_haversine lat1 lon1 lat2 lon2 :
  distanceMeters lat1 lon1 lat2 lon2
  = 6371000 * (2 * atan2 (sqrt (haversine lat1 lon1 lat2 lon2))
                         (sqrt (1 - haversine lat1 lon1 lat2 lon2))).
Proof. reflexivity. Qed.






End Distance.

(* ===================================================================== *)
(** * The nearest-shelter scan                                            *)
(* ===================================================================== *)

Section NearestShelter.
Import Frontend.
Local Open Scope R_scope.

Variables lat lon : R.










End NearestShelter.

Section NearestClaim.
Import Frontend.
Local Open Scope R_scope.




End NearestClaim.

(* ===================================================================== *)
(** * The scenario of two shelters                                        *)
(* ===================================================================== *)

Section Scenario.
Import Frontend.
Local Open Scope R_scope.

Lemma sin_sq_neg x : sin (- x) ^ 2 = sin x ^ 2.
Proof. rewrite sin_neg. ring. Qed.

(** For a small angle the sine lies between 0 and the angle. *)
Lemma sin_small x : 0 <= x -> x <= PI / 2 -> 0 <= sin x <= x.
Proof.
  intros H0 H1. pose proof PI_RGT_0 as Hpi. split.
  - apply sin_ge_0; lra.
  - destruct H0 as [H0|<-]; [left; apply sin_lt_x; exact H0|].
    rewrite sin_0. apply Rle_refl.
Qed.

Lemma sin_mono x y : 0 <= x -> x < y -> y <= PI / 2 -> sin x < sin y.
Proof.
  intros H0 Hxy H1. pose proof PI_RGT_0 as Hpi.
  apply sin_increasing_1; lra.
Qed.

(** An angle more than twice another has more than twice its squared
    sine, for angles this small. *)
Lemma sin_sq_double u v :
  0 <= u -> u * u <= 1 / 2 -> 2 * u < v -> v <= PI / 2 ->
  2 * sin u ^ 2 <= sin v ^ 2.
Proof.
  intros Hu Hsmall Huv Hv. pose proof PI_RGT_0 as Hpi.
  assert (Hu2 : u <= PI / 2) by lra.
  destruct (sin_small u Hu Hu2) as [Hs0 Hsu].
  assert (Hc0 : 0 <= cos u) by (apply cos_ge_0; lra).
  assert (H2 : sin (2 * u) < sin v) by (apply sin_mono; lra).
  rewrite sin_2a in H2.
  pose proof (sin2_cos2 u) as Hsc. unfold Rsqr in Hsc.
  assert (Hss : sin u * sin u <= u * u) by (apply Rmult_le_compat; lra).
  assert (Hcc : 1 / 2 <= cos u * cos u) by lra.
  assert (Hp : 0 <= 2 * sin u * cos u).
  { apply Rmult_le_pos; [lra|exact Hc0]. }
  assert (Hsq : (2 * sin u * cos u) * (2 * sin u * cos u) <= sin v * sin v).
  { apply Rmult_le_compat; lra. }
  assert (Hm : sin u * sin u * (1 / 2) <= sin u * sin u * (cos u * cos u)).
  { apply Rmult_le_compat_l; [|exact Hcc]. apply Rle_0_sqr. }
  replace (sin v ^ 2) with (sin v * sin v) by ring.
  replace (sin u ^ 2) with (sin u * sin u) by ring.
  replace (2 * sin u * cos u * (2 * sin u * cos u))
    with (4 * (sin u * sin u * (cos u * cos u))) in Hsq by ring.
  lra.
Qed.

(** The arc grows with the haversine. *)
Lemma arc_increasing a b :
  0 <= a -> a < b -> b < 1 ->
  atan2 (sqrt a) (sqrt (1 - a)) < atan2 (sqrt b) (sqrt (1 - b)).
Proof.
  intros Ha Hab Hb.
  assert (Hsa : 0 <= sqrt a) by apply sqrt_pos.
  assert (Hsab : sqrt a < sqrt b) by (apply sqrt_lt_1_alt; lra).
  assert (Hs1b : 0 < sqrt (1 - b)) by (apply sqrt_lt_R0; lra).
  assert (Hs1 : sqrt (1 - b) < sqrt (1 - a)) by (apply sqrt_lt_1_alt; lra).
  unfold atan2.
  destruct (Rlt_dec 0 (sqrt (1 - a))) as [_|N]; [|lra].
  destruct (Rlt_dec 0 (sqrt (1 - b))) as [_|N]; [|lra].
  apply atan_increasing.
  apply Rle_lt_trans with (sqrt a / sqrt (1 - b)).
  - unfold Rdiv. apply Rmult_le_compat_l; [exact Hsa|].
    left. apply Rinv_lt_contravar; [|exact Hs1].
    apply Rmult_lt_0_compat; lra.
  - unfold Rdiv. apply Rmult_lt_compat_r; [|exact Hsab].
    apply Rinv_0_lt_compat. exact Hs1b.
Qed.

Lemma distanceMeters_increasing lat lon latA lonA latB lonB :
  0 <= haversine lat lon latA lonA ->
  haversine lat lon latA lonA < haversine lat lon latB lonB ->
  haversine lat lon latB lonB < 1 ->
  distanceMeters lat lon latA lonA < distanceMeters lat lon latB lonB.
Proof.
  intros H0 Hlt H1. rewrite !distanceMeters_haversine.
  pose proof (arc_increasing _ _ H0 Hlt H1). lra.
Qed.

Definition shelterA : Feature := {| name := "A"; coordinates := (77.5933, 12.9721) |}.
Definition shelterB : Feature := {| name := "B"; coordinates := (77.5980, 12.9755) |}.

Lemma scenario_haversines :
  0 <= haversine 12.9730 77.5940 12.9721 77.5933
  /\ haversine 12.9730 77.5940 12.9721 77.5933 < haversine 12.9730 77.5940 12.9755 77.5980
  /\ haversine 12.9730 77.5940 12.9755 77.5980 < 1.
Proof.
  pose proof PI_RGT_0 as Hpi. pose proof PI_4 as Hpi4.
  set (k := PI / 180).
  assert (Hkdef : k = PI / 180) by reflexivity.
  assert (Hk : 0 < k <= 4 / 180) by lra.
  assert (Hk2 : k * k <= 1 / 1000).
  { apply Rle_trans with (4 / 180 * (4 / 180)); [|lra].
    apply Rmult_le_compat; lra. }
  unfold haversine.
  replace (toRad (12.9721 - 12.9730) / 2) with (- (45 / 100000 * k))
    by (unfold toRad, k; lra).
  replace (toRad (77.5933 - 77.5940) / 2) with (- (35 / 100000 * k))
    by (unfold toRad, k; lra).
  replace (toRad (12.9755 - 12.9730) / 2) with (125 / 100000 * k)
    by (unfold toRad, k; lra).
  replace (toRad (77.5980 - 77.5940) / 2) with (200 / 100000 * k)
    by (unfold toRad, k; lra).
  rewrite !sin_sq_neg.
  set (cP := cos (toRad 12.9730)). set (cA := cos (toRad 12.9721)).
  set (cB := cos (toRad 12.9755)).
  assert (HcP : 0 <= cP <= 1).
  { split; [apply cos_ge_0; unfold toRad; lra | apply COS_bound]. }
  assert (HcA : 0 <= cA <= 1).
  { split; [apply cos_ge_0; unfold toRad; lra | apply COS_bound]. }
  assert (HcB : 0 <= cB <= 1).
  { split; [apply cos_ge_0; unfold toRad; lra | apply COS_bound]. }
  assert (HPA : 0 <= cP * cA <= 1).
  { split; [apply Rmult_le_pos; lra|].
    replace 1 with (1 * 1) by ring. apply Rmult_le_compat; lra. }
  assert (HPB : 0 <= cP * cB <= 1).
  { split; [apply Rmult_le_pos; lra|].
    replace 1 with (1 * 1) by ring. apply Rmult_le_compat; lra. }
  set (u1 := 45 / 100000 * k). set (u2 := 35 / 100000 * k).
  set (v1 := 125 / 100000 * k). set (v2 := 200 / 100000 * k).
  assert (Hsq : forall x, 0 <= sin x ^ 2).
  { intros x. replace (sin x ^ 2) with (sin x * sin x) by ring. apply Rle_0_sqr. }
  (* the squared sines of the four half angles *)
  destruct (sin_small u2) as [Hu2a Hu2b]; [unfold u2; lra..|].
  destruct (sin_small v2) as [Hv2a Hv2b]; [unfold v2; lra..|].
  assert (H21 : sin u2 < sin u1) by (apply sin_mono; unfold u1, u2; lra).
  assert (Hs21 : sin u2 ^ 2 < sin u1 ^ 2).
  { replace (sin u2 ^ 2) with (sin u2 * sin u2) by ring.
    replace (sin u1 ^ 2) with (sin u1 * sin u1) by ring.
    apply Rmult_le_0_lt_compat; lra. }
  assert (Hd : 2 * sin u1 ^ 2 <= sin v1 ^ 2).
  { apply sin_sq_double; unfold u1, v1; lra. }
  assert (Hv1 : sin v1 ^ 2 <= 1 / 1000).
  { destruct (sin_small v1) as [Ha Hb]; [unfold v1; lra..|].
    replace (sin v1 ^ 2) with (sin v1 * sin v1) by ring.
    apply Rle_trans with (v1 * v1); [apply Rmult_le_compat; lra|].
    unfold v1. lra. }
  assert (Hv2 : sin v2 ^ 2 <= 1 / 1000).
  { replace (sin v2 ^ 2) with (sin v2 * sin v2) by ring.
    apply Rle_trans with (v2 * v2); [apply Rmult_le_compat; lra|].
    unfold v2. lra. }
  assert (HA2 : 0 <= cP * cA * sin u2 ^ 2 <= sin u2 ^ 2).
  { split; [apply Rmult_le_pos; [lra|apply Hsq]|].
    rewrite <- (Rmult_1_l (sin u2 ^ 2)) at 2.
    apply Rmult_le_compat_r; [apply Hsq|lra]. }
  assert (HB2 : 0 <= cP * cB * sin v2 ^ 2 <= sin v2 ^ 2).
  { split; [apply Rmult_le_pos; [lra|apply Hsq]|].
    rewrite <- (Rmult_1_l (sin v2 ^ 2)) at 2.
    apply Rmult_le_compat_r; [apply Hsq|lra]. }
  pose proof (Hsq u1). pose proof (Hsq v1).
  repeat split; lra.
Qed.

(** C8.  From latitude 12.9730, longitude 77.5940, shelter A (12.9721,
    77.5933) is strictly nearer than shelter B (12.9755, 77.5980), and
    [computeNearest] returns A with its distance. *)
Theorem C8_scenario_nearest_is_A :
  distanceMeters 12.9730 77.5940 12.9721 77.5933
  < distanceMeters 12.9730 77.5940 12.9755 77.5980
  /\ computeNearest 12.9730 77.5940 (Some {| features := Some [shelterA; shelterB] |})
     = Some {| feature := shelterA;
               distance := distanceMeters 12.9730 77.5940 12.9721 77.5933 |}
  /\ name shelterA = "A"%string.
Proof.
  destruct scenario_haversines as (H0 & Hlt & H1).
  pose proof (distanceMeters_increasing _ _ _ _ _ _ H0 Hlt H1) as Hd.
  split; [exact Hd|]. split; [|reflexivity].
  cbn [computeNearest features fold_left]. unfold scan.
  change (distanceTo 12.9730 77.5940 shelterA)
    with (distanceMeters 12.9730 77.5940 12.9721 77.5933).
  change (distanceTo 12.9730 77.5940 shelterB)
    with (distanceMeters 12.9730 77.5940 12.9755 77.5980).
  cbn [distance].
  destruct (Rlt_dec _ _) as [Hbad|_]; [lra|reflexivity].
Qed.

End Scenario.


(* ===================================================================== *)
(** * Failed fetches                                                      *)
(* ===================================================================== *)

Section RouteFailures.
Import JS Backend.




End RouteFailures.

(* ===================================================================== *)
(** * What reaches the provider                                           *)
(* ===================================================================== *)

Section ProviderCalls.
Import JS Backend.

(** A call that the request [req] accounts for: a route request, made with
    a credential, whose start and end are the strings of the call and pass
    the validator. *)
Definition accounts (env : Env) (req : Request) (c : Call) : Prop :=
  noKey env = false
  /\ isValidLonLatPair (QString (callStart c)) = true
  /\ isValidLonLatPair (QString (callEnd c)) = true
  /\ exists ip upstream done,
       req = GET_route ip (QString (callStart c)) (QString (callEnd c)) upstream done.

Lemma route_calls env now done start end_ upstream (cache : gmap string Entry) :
  snd (route env now done start end_ upstream cache) = []
  \/ exists s e,
       start = QString s /\ end_ = QString e /\ noKey env = false
       /\ isValidLonLatPair (QString s) = true /\ isValidLonLatPair (QString e) = true
       /\ snd (route env now done start end_ upstream cache)
          = [{| callStart := s; callEnd := e |}].
Proof.
  unfold route. destruct (noKey env) eqn:Hkey; [left; reflexivity|].
  destruct (qfalsy start || qfalsy end_); [left; reflexivity|].
  destruct (isValidLonLatPair start) eqn:Hs; [|left; reflexivity].
  destruct (isValidLonLatPair end_) eqn:He; [|left; reflexivity].
  cbn [negb orb].
  destruct start as [|s| |]; try discriminate Hs.
  destruct end_ as [|e| |]; try discriminate He.
  destruct (cacheGet now (s ++ "|" ++ e) cache) as [cached cache1].
  destruct (truthy_opt cached); [left; reflexivity|].
  right. exists s, e. repeat (split; [reflexivity || assumption|]).
  destruct upstream; reflexivity.
Qed.

Lemma handle_calls env now req st :
  snd (handle env now req st) = []
  \/ exists c, snd (handle env now req st) = [c] /\ accounts env req c.
Proof.
  destruct req as [| |reqBody|ip start end_ upstream done]; try (left; reflexivity).
  - left. unfold handle. destruct (notProduction env); [|reflexivity].
    destruct (postShelters reqBody (features st)). reflexivity.
  - unfold handle. destruct (routeLimiter now ip (hits st)) as [limited hits'].
    destruct limited; [left; reflexivity|].
    destruct (route_calls env now done start end_ upstream (routeCache st))
      as [H|(s & e & -> & -> & Hkey & Hs & He & H)];
      destruct (route env now done _ _ upstream (routeCache st)) as [[res c] calls];
      cbn [snd] in *.
    + left. exact H.
    + right. eexists. split; [exact H|].
      repeat split; try assumption. exists ip, upstream, done. reflexivity.
Qed.

(** A route request, whoever sends it. *)
Definition isRoute (r : Z * Request) : bool :=
  match snd r with
  | GET_route _ _ _ _ _ => true
  | _ => false
  end.

(** The gateway calls the provider only for route requests, at most once
    for each, only when a credential is configured, and only with a start
    and an end that pass the validator. *)
Theorem provider_calls_guarded :
  forall env reqs st,
    Forall (fun c => exists r, In r reqs /\ accounts env (snd r) c)
           (snd (run env reqs st))
    /\ (length (snd (run env reqs st)) <= length (List.filter isRoute reqs))%nat.
Proof.
  intros env reqs. induction reqs as [|[now req] rest IH]; intros st.
  - split; [constructor|apply Nat.le_refl].
  - cbn [run].
    pose proof (handle_calls env now req st) as Hh.
    destruct (handle env now req st) as [[res st1] calls]. cbn [snd] in Hh.
    destruct (IH st1) as [IH1 IH2].
    destruct (run env rest st1) as [[ress st2] calls']. cbn [snd] in *.
    split.
    + apply Forall_app. split.
      * destruct Hh as [->|(c & -> & Hc)]; [constructor|].
        constructor; [|constructor].
        exists (now, req). split; [left; reflexivity|exact Hc].
      * eapply Forall_impl; [exact IH1|].
        intros c (r & Hr & Hc). exists r. split; [right; exact Hr|exact Hc].
    + rewrite List.length_app. cbn [List.filter].
      destruct Hh as [->|(c & -> & Hc)].
      * cbn [length]. destruct (isRoute (now, req)); cbn [length]; lia.
      * destruct Hc as (_ & _ & _ & ip & upstream & done & ->).
        cbn [isRoute snd length]. lia.
Qed.

End ProviderCalls.

(* ===================================================================== *)
(** * Where cached answers come from                                      *)
(* ===================================================================== *)

Section CacheProvenance.
Import JS Backend.

Variable env : Env.

(** The entry was stored by one of the first [k] requests: a route request
    for a valid pair with this key, to which the provider answered the
    value of the entry, stamped when it was stored. *)
Definition storedBy (reqs : list (Z * Request)) (k : nat) (key : string) (d : Entry) : Prop :=
  exists j now0 ip0 s0 e0 done0,
    (j < k)%nat
    /\ nth_error reqs j
       = Some (now0, GET_route ip0 (QString s0) (QString e0) (Ok (v d)) done0)
    /\ s0 ++ "|" ++ e0 = key
    /\ isValidLonLatPair (QString s0) = true /\ isValidLonLatPair (QString e0) = true
    /\ t d = (if ROUTE_CACHE_TTL_SECONDS env =? 0 then 0
              else done0 + ROUTE_CACHE_TTL_SECONDS env * 1000).

Lemma stateAfter_snoc reqs : forall st k now req,
  nth_error reqs k = Some (now, req) ->
  stateAfter env (firstn (S k) reqs) st
  = snd (fst (handle env now req (stateAfter env (firstn k reqs) st))).
Proof.
  induction reqs as [|[now0 req0] rest IH]; intros st [|k] now req Hk;
    try discriminate Hk.
  - cbn in Hk. injection Hk as -> ->. cbn [firstn]. rewrite stateAfter_cons.
    destruct rest; reflexivity.
  - cbn [nth_error] in Hk.
    change (firstn (S (S k)) ((now0, req0) :: rest))
      with ((now0, req0) :: firstn (S k) rest).
    change (firstn (S k) ((now0, req0) :: rest)) with ((now0, req0) :: firstn k rest).
    rewrite !stateAfter_cons. apply IH. exact Hk.
Qed.

Lemma firstn_past (reqs : list (Z * Request)) k :
  nth_error reqs k = None -> firstn (S k) reqs = firstn k reqs.
Proof.
  intros H. apply nth_error_None in H.
  rewrite !firstn_all2 by lia. reflexivity.
Qed.

(** An entry of the cache after the handler was there before, or is the
    answer of the provider to this very request. *)
Lemma route_entries now done start end_ upstream (cache : gmap string Entry) key d :
  snd (fst (route env now done start end_ upstream cache)) !! key = Some d ->
  cache !! key = Some d
  \/ exists s e,
       start = QString s /\ end_ = QString e /\ s ++ "|" ++ e = key
       /\ isValidLonLatPair (QString s) = true /\ isValidLonLatPair (QString e) = true
       /\ upstream = Ok (v d)
       /\ t d = (if ROUTE_CACHE_TTL_SECONDS env =? 0 then 0
                 else done + ROUTE_CACHE_TTL_SECONDS env * 1000).
Proof.
  unfold route. destruct (noKey env); [auto|].
  destruct (qfalsy start || qfalsy end_); [auto|].
  destruct (isValidLonLatPair start) eqn:Hs; [|auto].
  destruct (isValidLonLatPair end_) eqn:He; [|auto].
  cbn [negb orb].
  destruct start as [|s| |]; try discriminate Hs.
  destruct end_ as [|e| |]; try discriminate He.
  assert (Hget : forall d0, snd (cacheGet now (s ++ "|" ++ e) cache) !! key = Some d0 ->
                            cache !! key = Some d0).
  { intros d0. unfold cacheGet. destruct (cache !! (s ++ "|" ++ e)) as [d1|]; [|auto].
    destruct (negb (t d1 =? 0) && (t d1 <? now)); [|auto]. cbn [snd].
    destruct (decide (s ++ "|" ++ e = key)) as [<-|Hne].
    - rewrite lookup_delete_eq. discriminate.
    - rewrite lookup_delete_ne by exact Hne. auto. }
  destruct (cacheGet now (s ++ "|" ++ e) cache) as [cached cache1]. cbn [snd] in Hget.
  destruct (truthy_opt cached); [cbn [fst snd]; auto|].
  destruct upstream as [message|st text|data]; cbn [fst snd]; auto.
  unfold cacheSet. destruct (decide (s ++ "|" ++ e = key)) as [<-|Hne].
  - rewrite lookup_insert_eq. intros [= <-]. right. exists s, e.
    repeat (split; [reflexivity || assumption|]). reflexivity.
  - rewrite lookup_insert_ne by exact Hne. auto.
Qed.

Lemma handle_entries now req st key d :
  routeCache (snd (fst (handle env now req st))) !! key = Some d ->
  routeCache st !! key = Some d
  \/ exists ip s e done,
       req = GET_route ip (QString s) (QString e) (Ok (v d)) done
       /\ s ++ "|" ++ e = key
       /\ isValidLonLatPair (QString s) = true /\ isValidLonLatPair (QString e) = true
       /\ t d = (if ROUTE_CACHE_TTL_SECONDS env =? 0 then 0
                 else done + ROUTE_CACHE_TTL_SECONDS env * 1000).
Proof.
  destruct req as [| |reqBody|ip start end_ upstream done]; try (left; assumption).
  - unfold handle. destruct (notProduction env); [|auto].
    destruct (postShelters reqBody (features st)). cbn [fst snd routeCache]. auto.
  - unfold handle. destruct (routeLimiter now ip (hits st)) as [limited hits'].
    destruct limited; [cbn [fst snd routeCache]; auto|].
    pose proof (route_entries now done start end_ upstream (routeCache st) key d) as H.
    destruct (route env now done start end_ upstream (routeCache st)) as [[res c] calls].
    cbn [fst snd routeCache] in *. intros Hd.
    destruct (H Hd) as [H0|(s & e & -> & -> & Hk & Hs & He & -> & Ht)]; [auto|].
    right. exists ip, s, e, done. auto.
Qed.

(** Every entry of the cache was stored by an earlier request. *)
Lemma entries_storedBy reqs st :
  routeCache st = ∅ ->
  forall k key d,
    routeCache (stateAfter env (firstn k reqs) st) !! key = Some d ->
    storedBy reqs k key d.
Proof.
  intros Hempty k. induction k as [|k IH]; intros key d Hd.
  - change (routeCache st !! key = Some d) in Hd.
    rewrite Hempty, lookup_empty in Hd. discriminate Hd.
  - destruct (nth_error reqs k) as [[now req]|] eqn:Hk.
    + rewrite (stateAfter_snoc reqs st k now req Hk) in Hd.
      destruct (handle_entries _ _ _ _ _ Hd)
        as [H0|(ip & s & e & done & -> & Hkey & Hs & He & Ht)].
      * destruct (IH key d H0) as (j & now0 & ip0 & s0 & e0 & done0 & Hj & Hrest).
        exists j, now0, ip0, s0, e0, done0. split; [lia|exact Hrest].
      * exists k, now, ip, s, e, done. repeat split; try assumption. lia.
    + rewrite (firstn_past reqs k Hk) in Hd.
      destruct (IH key d Hd) as (j & now0 & ip0 & s0 & e0 & done0 & Hj & Hrest).
      exists j, now0, ip0, s0, e0, done0. split; [lia|exact Hrest].
Qed.

(** An answer tagged [fromCache: true] comes from a live entry. *)
Lemma handle_fromCache now ip start end_ upstream done st data :
  fst (fst (handle env now (GET_route ip start end_ upstream done) st))
  = json200 (fromCacheBody true data) ->
  exists s e d,
    start = QString s /\ end_ = QString e
    /\ isValidLonLatPair (QString s) = true /\ isValidLonLatPair (QString e) = true
    /\ routeCache st !! (s ++ "|" ++ e) = Some d /\ v d = data
    /\ (t d = 0 \/ now <= t d).
Proof.
  unfold handle. destruct (routeLimiter now ip (hits st)) as [limited hits'].
  destruct limited; [discriminate|].
  unfold route. destruct (noKey env); [discriminate|].
  destruct (qfalsy start || qfalsy end_); [discriminate|].
  destruct (isValidLonLatPair start) eqn:Hs; [|discriminate].
  destruct (isValidLonLatPair end_) eqn:He; [|discriminate].
  cbn [negb orb].
  destruct start as [|s| |]; try discriminate Hs.
  destruct end_ as [|e| |]; try discriminate He.
  unfold cacheGet. destruct (routeCache st !! (s ++ "|" ++ e)) as [d|] eqn:Hd.
  - destruct (negb (t d =? 0) && (t d <? now)) eqn:Hstale.
    + cbn [truthy_opt]. destruct upstream; discriminate.
    + cbn [truthy_opt]. destruct (truthy (v d)).
      * cbn [fst]. intros [= <-]. exists s, e, d. repeat split; try assumption.
        apply andb_false_iff in Hstale as [H|H].
        -- left. apply negb_false_iff, Z.eqb_eq in H. exact H.
        -- right. apply Z.ltb_ge in H. exact H.
      * destruct upstream; discriminate.
  - cbn [truthy_opt]. destruct upstream; discriminate.
Qed.

(** Starting with an empty cache, with a positive time-to-live and times
    of storing that are not negative: whenever a route request is answered
    with a payload tagged [fromCache: true], an earlier request of the run
    for the same start and end was answered with that payload by the
    provider, and the present request comes no later than the time-to-live
    after that payload was stored. *)
Theorem cached_answers_come_from_the_provider :
  forall reqs st,
    routeCache st = ∅ ->
    0 < ROUTE_CACHE_TTL_SECONDS env ->
    Forall (fun r => match snd r with
                     | GET_route _ _ _ _ done => 0 <= done
                     | _ => True
                     end) reqs ->
    forall k now ip start end_ upstream done data,
      nth_error reqs k = Some (now, GET_route ip start end_ upstream done) ->
      nth_error (responses env reqs st) k = Some (json200 (fromCacheBody true data)) ->
      exists j now0 ip0 done0,
        (j < k)%nat
        /\ nth_error reqs j = Some (now0, GET_route ip0 start end_ (Ok data) done0)
        /\ now <= done0 + ROUTE_CACHE_TTL_SECONDS env * 1000.
Proof.
  intros reqs st Hempty Httl Hdone k now ip start end_ upstream done data Hk Hres.
  rewrite (responses_nth env reqs st k _ _ Hk) in Hres. injection Hres as Hres.
  destruct (handle_fromCache _ _ _ _ _ _ _ _ Hres)
    as (s & e & d & -> & -> & Hs & He & Hd & <- & Hlive).
  destruct (entries_storedBy reqs st Hempty k _ d Hd)
    as (j & now0 & ip0 & s0 & e0 & done0 & Hj & Hreq & Hkey & Hs0 & He0 & Ht).
  destruct (cacheKey_inj s0 e0 s e Hs0 Hs Hkey) as [-> ->].
  exists j, now0, ip0, done0. split; [exact Hj|]. split; [exact Hreq|].
  replace (ROUTE_CACHE_TTL_SECONDS env =? 0) with false in Ht
    by (symmetry; apply Z.eqb_neq; lia).
  assert (H0 : 0 <= done0).
  { rewrite Forall_forall in Hdone.
    apply (Hdone (now0, GET_route ip0 (QString s) (QString e) (Ok (v d)) done0)).
    apply list_elem_of_In. eapply nth_error_In. exact Hreq. }
  lia.
Qed.

End CacheProvenance.

Section CacheProvenanceWitness.
Import JS Backend.

(** Three requests of one client for one pair: fetched, then served from
    the cache, then, past the time-to-live, fetched again. *)
Definition threeRequests : list (Z * Request) :=
  [ (1000, GET_route client (QString cityHall) (QString communityCenter)
                     (Ok (JObj [])) 1200);
    (2000, GET_route client (QString cityHall) (QString communityCenter)
                     (Rejects "offline") 2001);
    (40000, GET_route client (QString cityHall) (QString communityCenter)
                      (Ok JNull) 40100) ].

Lemma cached_answers_come_from_the_provider_witness :
  nth_error (responses envWithKey threeRequests initialState) 1
  = Some (json200 (fromCacheBody true (JObj [])))
  /\ exists j now0 ip0 done0,
       (j < 1)%nat
       /\ nth_error threeRequests j
          = Some (now0, GET_route ip0 (QString cityHall) (QString communityCenter)
                                  (Ok (JObj [])) done0)
       /\ 2000 <= done0 + ROUTE_CACHE_TTL_SECONDS envWithKey * 1000.
Proof.
  assert (H : nth_error (responses envWithKey threeRequests initialState) 1
              = Some (json200 (fromCacheBody true (JObj []))))
    by (vm_compute; reflexivity).
  split; [exact H|].
  apply (cached_answers_come_from_the_provider envWithKey threeRequests initialState
           eq_refl eq_refl) with (k := 1%nat) (ip := client)
           (upstream := Rejects "offline") (done := 2001).
  - repeat constructor; discriminate.
  - reflexivity.
  - exact H.
Defined.

End CacheProvenanceWitness.

(* ===================================================================== *)
(** * The end of a rate-limit window                                      *)
(* ===================================================================== *)

Section WindowReset.
Import JS Backend.

Variable env : Env.
Variable ip : string.
Variable tmax : Z.

(** The window of the client, if it has one, ends no later than
    [windowMs] after [tmax]. *)
Definition endsBy (st : State) : Prop :=
  forall w, hits st !! ip = Some w -> resetTime w <= tmax + windowMs.

Lemma handle_endsBy now req st :
  now <= tmax -> endsBy st -> endsBy (snd (fst (handle env now req st))).
Proof.
  intros Hnow Hst.
  destruct (routeFrom ip (now, req)) eqn:Hr.
  - destruct req as [| |reqBody|ip' start end_ upstream done]; try discriminate Hr.
    unfold routeFrom in Hr. cbn [snd] in Hr. apply String.eqb_eq in Hr. subst ip'.
    unfold endsBy, handle, routeLimiter, rateLimit, increment. cbv beta iota zeta.
    set (w0 := match hits st !! ip with
               | Some w => if now <? resetTime w
                           then {| totalHits := totalHits w + 1; resetTime := resetTime w |}
                           else {| totalHits := 1; resetTime := now + windowMs |}
               | None => {| totalHits := 1; resetTime := now + windowMs |}
               end).
    assert (Hw0 : resetTime w0 <= tmax + windowMs).
    { subst w0. destruct (hits st !! ip) as [w|] eqn:E; cbn [resetTime]; [|lia].
      destruct (now <? resetTime w); cbn [resetTime]; [apply Hst; exact E|lia]. }
    intros w.
    destruct (max <? totalHits w0).
    + cbn [fst snd hits]. rewrite lookup_insert_eq. intros [= <-]. exact Hw0.
    + destruct (route env now done start end_ upstream (routeCache st)) as [[res c] calls].
      cbn [fst snd hits]. rewrite lookup_insert_eq. intros [= <-]. exact Hw0.
  - unfold endsBy. rewrite (handle_hits_other env now req st ip Hr). exact Hst.
Qed.

Lemma run_endsBy reqs : forall st,
  Forall (fun r => fst r <= tmax) reqs -> endsBy st -> endsBy (stateAfter env reqs st).
Proof.
  induction reqs as [|[now req] rest IH]; intros st Hin Hst; [exact Hst|].
  apply Forall_cons_iff in Hin as [Hnow Hin]. cbn [fst] in Hnow.
  rewrite stateAfter_cons. apply IH; [exact Hin|].
  apply handle_endsBy; assumption.
Qed.

(** The limiter does not keep a client out for longer than the window.
    Whatever requests the gateway has served up to time [tmax], however
    many of them the client has sent, a route request of the client that
    comes [windowMs] or more after [tmax] goes to the route handler and
    opens a new window with one hit. *)
Theorem limiter_readmits_after_window :
  forall reqs st now start end_ upstream done,
    endsBy st ->
    Forall (fun r => fst r <= tmax) reqs ->
    tmax + windowMs <= now ->
    let st1 := stateAfter env reqs st in
    exists hits',
      handle env now (GET_route ip start end_ upstream done) st1
      = (let '(res, c, calls) :=
           route env now done start end_ upstream (routeCache st1) in
         (res, {| features := features st1; routeCache := c; hits := hits' |}, calls))
      /\ hits' !! ip = Some {| totalHits := 1; resetTime := now + windowMs |}.
Proof.
  intros reqs st now start end_ upstream done Hst Hin Hnow st1.
  pose proof (run_endsBy reqs st Hin Hst) as H1. fold st1 in H1.
  unfold handle, routeLimiter, rateLimit, increment. cbv beta iota zeta.
  set (w0 := match hits st1 !! ip with
             | Some w => if now <? resetTime w
                         then {| totalHits := totalHits w + 1; resetTime := resetTime w |}
                         else {| totalHits := 1; resetTime := now + windowMs |}
             | None => {| totalHits := 1; resetTime := now + windowMs |}
             end).
  assert (Hw0 : w0 = {| totalHits := 1; resetTime := now + windowMs |}).
  { subst w0. destruct (hits st1 !! ip) as [w|] eqn:E; [|reflexivity].
    specialize (H1 w E).
    replace (now <? resetTime w) with false by (symmetry; apply Z.ltb_ge; lia).
    reflexivity. }
  rewrite Hw0. cbn [totalHits]. change (max <? 1) with false. cbv iota.
  exists (<[ip := {| totalHits := 1; resetTime := now + windowMs |}]> (hits st1)).
  split; [reflexivity|]. apply lookup_insert_eq.
Qed.

End WindowReset.

Section WindowResetWitness.
Import JS Backend.

(** After 61 requests at time 5, the last of them rejected, the client is
    served again 15 minutes later. *)
Lemma limiter_readmits_after_window_witness :
  nth_error (responses envWithKey (burst 61) initialState) 60 = Some tooManyRequests
  /\ exists hits',
       handle envWithKey (5 + windowMs)
         (GET_route client (QString cityHall) (QString communityCenter) (Ok (JObj [])) 6)
         (stateAfter envWithKey (burst 61) initialState)
       = (let '(res, c, calls) :=
            route envWithKey (5 + windowMs) 6 (QString cityHall) (QString communityCenter)
                  (Ok (JObj [])) (routeCache (stateAfter envWithKey (burst 61) initialState)) in
          (res, {| features := features (stateAfter envWithKey (burst 61) initialState);
                   routeCache := c; hits := hits' |}, calls))
       /\ hits' !! client = Some {| totalHits := 1; resetTime := 5 + windowMs + windowMs |}.
Proof.
  split; [vm_compute; reflexivity|].
  apply (limiter_readmits_after_window envWithKey client 5 (burst 61) initialState).
  - intros w H. cbn [hits initialState] in H. rewrite lookup_empty in H. discriminate H.
  - apply Forall_forall. intros r Hr. apply list_elem_of_In, repeat_spec in Hr.
    subst r. cbn [fst]. lia.
  - lia.
Defined.

End WindowResetWitness.

(* ===================================================================== *)
(** * The shelters after a run                                            *)
(* ===================================================================== *)

Section ShelterStore.
Import JS Backend.

(** The shelter that a POST body adds, if the handler accepts it. *)
Definition posted (reqBody : option json) : list json :=
  snd (postShelters reqBody []).

(** The shelters that the POST requests of a run add, in order. *)
Definition allPosted (reqs : list (Z * Request)) : list json :=
  flat_map (fun r => match snd r with
                     | POST_shelters reqBody => posted reqBody
                     | _ => []
                     end) reqs.

Lemma postShelters_appends reqBody feats :
  snd (postShelters reqBody feats) = (feats ++ posted reqBody)%list.
Proof.
  unfold posted, postShelters.
  destruct (negb (truthy_opt (get (bodyOrEmpty reqBody) "name"))
            || negb (isFinite (get (bodyOrEmpty reqBody) "lon"))
            || negb (isFinite (get (bodyOrEmpty reqBody) "lat"))) eqn:Hbad;
    unfold bodyOrEmpty in Hbad; rewrite Hbad.
  - cbn [snd]. rewrite List.app_nil_r. reflexivity.
  - destruct (get _ "name") as [n|]; [|cbn [snd]; rewrite List.app_nil_r; reflexivity].
    destruct (get _ "lon") as [[| |x| | |]|];
      try (cbn [snd]; rewrite List.app_nil_r; reflexivity).
    destruct (get _ "lat") as [[| |y| | |]|];
      try (cbn [snd]; rewrite List.app_nil_r; reflexivity).
    reflexivity.
Qed.

Lemma posted_one reqBody : (length (posted reqBody) <= 1)%nat.
Proof.
  unfold posted, postShelters.
  destruct (negb _ || negb _ || negb _); [cbn; lia|].
  destruct (get _ "name") as [n|]; [|cbn; lia].
  destruct (get _ "lon") as [[| |x| | |]|]; try (cbn; lia).
  destruct (get _ "lat") as [[| |y| | |]|]; cbn; lia.
Qed.

(** Outside production the shelters are an append-only list: after any run
    the feature array is the one the run started with, followed by the
    shelters of the accepted POST requests in the order of the requests,
    at most one for each; nothing is removed, replaced or reordered, and
    GET /api/shelters after the run lists exactly these. *)
Theorem shelters_append_only :
  forall env reqs st,
    notProduction env = true ->
    features (stateAfter env reqs st) = (features st ++ allPosted reqs)%list
    /\ fst (fst (handle env 0 GET_shelters (stateAfter env reqs st)))
       = listShelters (features st ++ allPosted reqs)
    /\ (length (allPosted reqs) <= length (List.filter (fun r => negb (notPost (snd r))) reqs))%nat.
Proof.
  intros env reqs st Hdev.
  assert (H1 : forall st0, features (stateAfter env reqs st0)
                           = (features st0 ++ allPosted reqs)%list).
  { induction reqs as [|[now req] rest IH]; intros st0.
    - cbn. rewrite List.app_nil_r. reflexivity.
    - rewrite stateAfter_cons, IH. cbn [allPosted flat_map snd].
      rewrite List.app_assoc. f_equal.
      destruct req as [| |reqBody|ip start end_ upstream done].
      + cbn. rewrite List.app_nil_r. reflexivity.
      + cbn. rewrite List.app_nil_r. reflexivity.
      + unfold handle. rewrite Hdev.
        pose proof (postShelters_appends reqBody (features st0)) as Hp.
        destruct (postShelters reqBody (features st0)) as [res f']. cbn [snd] in Hp.
        cbn [fst snd features]. exact Hp.
      + rewrite List.app_nil_r.
        apply (handle_features env now (GET_route ip start end_ upstream done) st0).
        right. reflexivity. }
  split; [apply H1|]. split.
  - cbn [handle fst]. rewrite H1. reflexivity.
  - clear H1. induction reqs as [|[now req] rest IH]; [cbn; lia|].
    cbn [allPosted flat_map List.filter snd]. rewrite List.length_app.
    fold (allPosted rest).
    destruct req as [| |reqBody|ip start end_ upstream done]; cbn [notPost negb length];
      try lia.
    pose proof (posted_one reqBody). cbn [length]. lia.
Qed.

Definition twoPosts : list (Z * Request) :=
  [ (0, POST_shelters (Some newShelter));
    (1, POST_shelters (Some (JObj [("name", JStr ""); ("lon", JNum 1); ("lat", JNum 2)])));
    (2, GET_route client (QString cityHall) (QString communityCenter) (Ok (JObj [])) 3);
    (3, POST_shelters (Some (JObj [("name", JStr "Hall"); ("lon", JNum 3); ("lat", JNum 4)]))) ].

Lemma shelters_append_only_witness :
  features (stateAfter devEnv twoPosts initialState)
  = (initialFeatures
     ++ [feature (JStr "Depot") 1000 (-500); feature (JStr "Hall") 3 4])%list.
Proof.
  apply (shelters_append_only devEnv twoPosts initialState). reflexivity.
Defined.

End ShelterStore.

(* ===================================================================== *)
(** * More on the distance                                                *)
(* ===================================================================== *)

Section DistanceFacts.
Import Frontend.
Local Open Scope R_scope.




End DistanceFacts.

(* ===================================================================== *)
(** * More on the nearest shelter                                         *)
(* ===================================================================== *)

Section NearestFacts.
Import Frontend.
Local Open Scope R_scope.



End NearestFacts.

(* ===================================================================== *)
(** * The rate of route requests                                          *)
(* ===================================================================== *)

Section ThrottleRate.
Import Frontend.

Variable throttleMs : Z.

(** A chain of times, each at least the interval after the one before,
    whose members are all at most [hi], starts early enough. *)
Lemma chain_span l : forall a hi,
  Sorted (apart throttleMs) (a :: l) ->
  Forall (fun x => x <= hi) (a :: l) ->
  a + Z.of_nat (length l) * throttleMs <= hi.
Proof.
  induction l as [|b l IH]; intros a hi Hs Hb.
  - apply Forall_cons_iff in Hb as [Ha _]. cbn [length]. lia.
  - apply Sorted_inv in Hs as [Hs Hd]. apply HdRel_inv in Hd. unfold apart in Hd.
    apply Forall_cons_iff in Hb as [_ Hb].
    specialize (IH b hi Hs Hb). cbn [length]. lia.
Qed.

Lemma grants_times calls : forall h g,
  In g (grants throttleMs calls h) -> exists s, In (g, s) calls.
Proof.
  induction calls as [|[now settled] rest IH]; intros h g Hg; [destruct Hg|].
  cbn [grants] in Hg.
  destruct (requestRoute throttleMs now settled h) as [r h1].
  destruct (granted r).
  - destruct Hg as [<-|Hg]; [exists settled; left; reflexivity|].
    destruct (IH h1 g Hg) as [s Hs]. exists s. right. exact Hs.
  - destruct (IH h1 g Hg) as [s Hs]. exists s. right. exact Hs.
Qed.

(** The throttle bounds the rate of requests: when all calls of
    [requestRoute] fall in a span of [T] milliseconds, from [t0] to
    [t0 + T], the number [n] of requests that go out satisfies
    [(n - 1) * throttleMs <= T], whatever the state before and whatever
    the order of the clock readings. *)
Theorem throttle_bounds_the_rate :
  forall calls h t0 T,
    Forall (fun c => t0 <= fst c <= t0 + T) calls ->
    grants throttleMs calls h = []
    \/ (Z.of_nat (length (grants throttleMs calls h)) - 1) * throttleMs <= T.
Proof.
  intros calls h t0 T Hin.
  destruct (grants throttleMs calls h) as [|a l] eqn:Hg; [left; reflexivity|right].
  assert (Hs : Sorted (apart throttleMs) (a :: l)).
  { pose proof (grants_chain throttleMs calls h) as H. rewrite Hg in H.
    inversion H. assumption. }
  assert (Hb : forall x, In x (a :: l) -> t0 <= x <= t0 + T).
  { intros x Hx. rewrite <- Hg in Hx.
    destruct (grants_times calls h x Hx) as [s Hs'].
    rewrite Forall_forall in Hin. apply (Hin (x, s)). apply list_elem_of_In. exact Hs'. }
  assert (Hhi : Forall (fun x => x <= t0 + T) (a :: l)).
  { apply Forall_forall. intros x Hx. apply list_elem_of_In in Hx. apply Hb. exact Hx. }
  pose proof (chain_span l a (t0 + T) Hs Hhi) as Hspan.
  assert (Ha : t0 <= a) by (apply Hb; left; reflexivity).
  cbn [length]. lia.
Qed.

End ThrottleRate.

Section ThrottleRateWitness.
Import Frontend.

(** Eleven checks, one every second from 5000 to 15000, with an interval
    of 4000: three requests go out, and [(3 - 1) * 4000 <= 10000]. *)
Definition everySecond : list (Z * Settled) :=
  map (fun i => (5000 + 1000 * Z.of_nat i, Raised "offline")) (seq 0 11).

Lemma throttle_bounds_the_rate_witness :
  grants 4000 everySecond initialHook = [5000; 9000; 13000]
  /\ (grants 4000 everySecond initialHook = []
      \/ (Z.of_nat (length (grants 4000 everySecond initialHook)) - 1) * 4000 <= 10000).
Proof.
  split; [reflexivity|].
  apply (throttle_bounds_the_rate 4000 everySecond initialHook 5000 10000).
  repeat constructor; cbn; lia.
Defined.

End ThrottleRateWitness.

(* ===================================================================== *)
(** * The answer of the gateway in the hook                               *)
(* ===================================================================== *)

(** The part of [requestRoute] that follows the fetch, and
    [convertOrsToLeafletCoords], on the values of [JS]. *)
Module Answer.
Import JS.

(** The operand of [?.]: [null] and [undefined] end the chain. *)
Definition optional (x : option json) : option json :=
  match x with
  | Some JNull | None => None
  | Some y => Some y
  end.

(** [x?.k] *)
Definition prop (k : string) (x : option json) : option json :=
  match optional x with
  | Some y => get y k
  | None => None
  end.

(** [x?.[0]]: the first element of an array, the first character of a
    string, the member ["0"] of an object. *)
Definition first (x : option json) : option json :=
  match optional x with
  | Some (JArr (y :: _)) => Some y
  | Some (JStr (String c _)) => Some (JStr (String c EmptyString))
  | Some (JObj fields) => lookup_field "0" fields
  | _ => None
  end.

(** [orsData?.features?.[0]?.geometry?.coordinates] *)
Definition coordinatesOf (orsData : option json) : option json :=
  prop "coordinates" (prop "geometry" (first (prop "features" orsData))).

(** The values that the pattern [[lon, lat]] iterates over: the elements
    of an array, the characters of a string; nothing else is iterable. *)
Definition iterate (el : json) : option (list json) :=
  match el with
  | JArr l => Some l
  | JStr s => Some (map (fun c => JStr (String c EmptyString)) (list_ascii_of_string s))
  | _ => None
  end.

(** [([lon, lat]) => [lat, lon]]; [None] when the pattern raises a
    TypeError.  A missing element is [undefined]. *)
Definition swap (el : json) : option (option json * option json) :=
  match iterate el with
  | Some l => Some (nth_error l 1, nth_error l 0)
  | None => None
  end.

(** [coords.map(...)]; [None] when one of the elements raises. *)
Fixpoint swapAll (items : list json) : option (list (option json * option json)) :=
  match items with
  | [] => Some []
  | el :: rest =>
      match swap el, swapAll rest with
      | Some p, Some ps => Some (p :: ps)
      | _, _ => None
      end
  end.

(** The result is a list of [[lat, lon]] pairs. *)
Definition convertOrsToLeafletCoords (orsData : option json)
  : list (option json * option json) :=
  match coordinatesOf orsData with
  | Some (JArr items) =>
      match swapAll items with
      | Some ps => ps
      | None => []
      end
  | _ => []
  end.

(** [res.ok] *)
Definition ok (status : Z) : bool := (200 <=? status) && (status <=? 299).

(** How the rest of [requestRoute] ends for a response with a status and
    a parsed body: an error made from [json?.error || 'Route fetch
    failed'], a TypeError for reading [data] of [null], or the route
    [{ raw, coords, fromCache }]. *)
Inductive Completion : Type :=
  | Fails (error : json)
  | FailsTypeError
  | Completes (raw : json) (coords : list (option json * option json)) (fromCache : bool).

Definition complete (status : Z) (json : json) : Completion :=
  if negb (ok status) then
    Fails match prop "error" (Some json) with
          | Some x => if truthy x then x else JStr "Route fetch failed"
          | None => JStr "Route fetch failed"
          end
  else
    match json with
    | JNull => FailsTypeError
    | _ =>
        let data := match get json "data" with
                    | Some d => if truthy d then d else json
                    | None => json
                    end in
        Completes json (convertOrsToLeafletCoords (Some data))
                  (truthy_opt (get json "fromCache"))
    end.

End Answer.

Section AnswerFacts.
Import JS Backend Answer.

Lemma swapAll_arrays items :
  Forall (fun el => exists l, el = JArr l) items ->
  swapAll items
  = Some (map (fun el => match el with
                         | JArr l => (nth_error l 1, nth_error l 0)
                         | _ => (None, None)
                         end) items).
Proof.
  induction 1 as [|el rest [l ->] _ IH]; [reflexivity|].
  cbn [swapAll map]. rewrite IH. reflexivity.
Qed.

Lemma swapAll_raises items el :
  In el items -> iterate el = None -> swapAll items = None.
Proof.
  intros Hin Hel. induction items as [|x rest IH]; [destruct Hin|].
  cbn [swapAll]. destruct Hin as [->|Hin].
  - unfold swap. rewrite Hel. reflexivity.
  - rewrite (IH Hin). destruct (swap x); reflexivity.
Qed.

(** [convertOrsToLeafletCoords] turns a path of arrays point by point,
    keeping their number and order: a point [[lon, lat, ...]] becomes
    [[lat, lon]], whatever follows the two.  When the document has no
    array at [features[0].geometry.coordinates], or when one point of the
    path is [null], a number, a boolean or an object, the whole result is
    the empty path. *)
Theorem convertOrsToLeafletCoords_swaps :
  forall orsData,
    (forall items,
       coordinatesOf orsData = Some (JArr items) ->
       Forall (fun el => exists l, el = JArr l) items ->
       length (convertOrsToLeafletCoords orsData) = length items
       /\ forall i lon lat rest,
            nth_error items i = Some (JArr (lon :: lat :: rest)) ->
            nth_error (convertOrsToLeafletCoords orsData) i = Some (Some lat, Some lon))
    /\ (forall items el,
          coordinatesOf orsData = Some (JArr items) ->
          In el items -> iterate el = None ->
          convertOrsToLeafletCoords orsData = [])
    /\ ((forall items, coordinatesOf orsData <> Some (JArr items)) ->
        convertOrsToLeafletCoords orsData = []).
Proof.
  intros orsData. split; [|split].
  - intros items Hc Harr. unfold convertOrsToLeafletCoords.
    rewrite Hc, (swapAll_arrays items Harr). split; [apply List.length_map|].
    intros i lon lat rest Hi. rewrite List.nth_error_map, Hi. reflexivity.
  - intros items el Hc Hin Hel. unfold convertOrsToLeafletCoords.
    rewrite Hc, (swapAll_raises items el Hin Hel). reflexivity.
  - intros Hc. unfold convertOrsToLeafletCoords.
    destruct (coordinatesOf orsData) as [[| | | |items|]|]; try reflexivity.
    exfalso. apply (Hc items). reflexivity.
Qed.

(** A route document as the provider sends it, with its path. *)
Definition routeDocument (path : list json) : json :=
  JObj [("type", JStr "FeatureCollection");
        ("features",
         JArr [JObj [("type", JStr "Feature");
                     ("geometry", JObj [("type", JStr "LineString");
                                        ("coordinates", JArr path)])]])].

Definition point (lon lat : float) : json := JArr [JNum lon; JNum lat].

Lemma convertOrsToLeafletCoords_swaps_witness :
  (length (convertOrsToLeafletCoords
             (Some (routeDocument [point 77.5933 12.9721; point 77.5980 12.9755])))
   = 2%nat
   /\ forall i lon lat rest,
        nth_error [point 77.5933 12.9721; point 77.5980 12.9755] i
        = Some (JArr (lon :: lat :: rest)) ->
        nth_error (convertOrsToLeafletCoords
                     (Some (routeDocument [point 77.5933 12.9721; point 77.5980 12.9755]))) i
        = Some (Some lat, Some lon))
  /\ convertOrsToLeafletCoords
       (Some (routeDocument [point 77.5933 12.9721; JNull])) = []
  /\ convertOrsToLeafletCoords (Some (JObj [("error", JStr "no route")])) = [].
Proof.
  split; [|split].
  - destruct (convertOrsToLeafletCoords_swaps
                (Some (routeDocument [point 77.5933 12.9721; point 77.5980 12.9755])))
      as (H & _ & _).
    apply (H [point 77.5933 12.9721; point 77.5980 12.9755]); [reflexivity|].
    repeat constructor; eexists; reflexivity.
  - destruct (convertOrsToLeafletCoords_swaps
                (Some (routeDocument [point 77.5933 12.9721; JNull])))
      as (_ & H & _).
    apply (H [point 77.5933 12.9721; JNull] JNull);
      [reflexivity | right; left; reflexivity | reflexivity].
  - destruct (convertOrsToLeafletCoords_swaps (Some (JObj [("error", JStr "no route")])))
      as (_ & _ & H).
    apply H. intros items. discriminate.
Defined.

(** What the hook makes of an answer of the route handler, for a provider
    whose failures carry a status that is not ok.  An answer with a status
    that is ok completes the request: the route keeps the whole answer as
    [raw], its [fromCache] is the tag the gateway sent and is true exactly
    when the gateway did not call the provider, and for a truthy payload
    its [coords] are the converted path of the payload.  Every other answer
    raises an error whose message is the [error] string of the gateway. *)
Theorem hook_reads_the_gateway_answer :
  forall env now done start end_ upstream (cache : gmap string Entry),
    (forall st text, upstream = NotOk st text -> ok st = false) ->
    let res := fst (fst (route env now done start end_ upstream cache)) in
    let calls := snd (route env now done start end_ upstream cache) in
    match complete (status res) (body res) with
    | Completes raw coords fromCache =>
        raw = body res
        /\ (fromCache = true <-> calls = [])
        /\ exists data,
             body res = fromCacheBody fromCache data
             /\ (truthy data = true -> coords = convertOrsToLeafletCoords (Some data))
    | Fails error =>
        ok (status res) = false
        /\ exists msg, error = JStr msg /\ msg <> ""
                       /\ get (body res) "error" = Some (JStr msg)
    | FailsTypeError => False
    end.
Proof.
  intros env now done start end_ upstream cache Hup res calls. subst res calls.
  unfold route. destruct (noKey env).
  { split; [reflexivity|]. eexists. split; [reflexivity|]. split; [discriminate|reflexivity]. }
  destruct (qfalsy start || qfalsy end_).
  { split; [reflexivity|]. exists startEndRequired.
    split; [reflexivity|]. split; [discriminate|reflexivity]. }
  destruct (negb (isValidLonLatPair start) || negb (isValidLonLatPair end_)).
  { split; [reflexivity|]. exists startEndInvalid.
    split; [reflexivity|]. split; [discriminate|reflexivity]. }
  destruct start as [|s| |];
    try (split; [reflexivity|]; exists startEndInvalid;
         split; [reflexivity|]; split; [discriminate|reflexivity]).
  destruct end_ as [|e| |];
    try (split; [reflexivity|]; exists startEndInvalid;
         split; [reflexivity|]; split; [discriminate|reflexivity]).
  destruct (cacheGet now (s ++ "|" ++ e) cache) as [cached cache1].
  destruct (truthy_opt cached) eqn:Hc.
  - destruct cached as [d|]; [|discriminate Hc]. cbn [truthy_opt] in Hc.
    cbn [fst snd status body json200 fromCacheBody]. unfold complete.
    cbn [ok Z.leb negb andb get lookup_field String.eqb Ascii.eqb Bool.eqb truthy_opt truthy].
    change (negb (ok 200)) with false. cbv iota.
    cbn. rewrite Hc. split; [reflexivity|]. split; [tauto|].
    exists d. split; [reflexivity|]. intros _. reflexivity.
  - destruct upstream as [message|st text|data].
    + split; [reflexivity|]. exists "Failed to fetch route".
      split; [reflexivity|]. split; [discriminate|reflexivity].
    + cbn [fst snd status body jsonStatus]. unfold complete.
      rewrite (Hup st text eq_refl). cbn [negb].
      split; [reflexivity|]. exists "OpenRouteService error".
      split; [reflexivity|]. split; [discriminate|reflexivity].
    + cbn [fst snd status body json200 fromCacheBody]. unfold complete.
      change (negb (ok 200)) with false. cbv iota.
      cbn. split; [reflexivity|]. split; [split; discriminate|].
      exists data. split; [reflexivity|]. intros ->. reflexivity.
Qed.

Lemma hook_reads_the_gateway_answer_witness :
  let res := fst (fst (route envWithKey 1000 1200 (QString cityHall)
                             (QString communityCenter) (NotOk 404 "no route") ∅)) in
  let calls := snd (route envWithKey 1000 1200 (QString cityHall)
                          (QString communityCenter) (NotOk 404 "no route") ∅) in
  match complete (status res) (body res) with
  | Completes raw coords fromCache =>
      raw = body res
      /\ (fromCache = true <-> calls = [])
      /\ exists data,
           body res = fromCacheBody fromCache data
           /\ (truthy data = true -> coords = convertOrsToLeafletCoords (Some data))
  | Fails error =>
      ok (status res) = false
      /\ exists msg, error = JStr msg /\ msg <> ""
                     /\ get (body res) "error" = Some (JStr msg)
  | FailsTypeError => False
  end.
Proof.
  apply (hook_reads_the_gateway_answer envWithKey 1000 1200 (QString cityHall)
           (QString communityCenter) (NotOk 404 "no route") ∅).
  intros st text [= <- _]. reflexivity.
Defined.

End AnswerFacts.

(* ===================================================================== *)
(** * The position callback of the watch                                  *)
(* ===================================================================== *)

(** The callback that [start] hands to [watchPosition], with
    [fetchShelters].  The callback closes over the [shelters] state of the
    render in which [start] was made. *)
Module Watch.
Import Frontend.
Local Open Scope R_scope.

(** The [position] and [nearest] states, and the state of [requestRoute]. *)
Record Watch : Type := {
  position : option (R * R);
  nearest : option Nearest;
  hook : Hook
}.

(** What the request of [fetchShelters] does: the fetch or the reading of
    the body is rejected, shown by the callback as [text], or a response
    arrives, ok or not, with its parsed body. *)
Inductive Fetched : Type :=
  | FetchRejects (text : string)
  | FetchResponds (ok : bool) (geo : option GeoJSON).

(** [fetchShelters]: the document, or the text of the error raised. *)
Definition fetchShelters (f : Fetched) : string + option GeoJSON :=
  match f with
  | FetchRejects text => inl text
  | FetchResponds false _ => inl "Failed to load shelters"
  | FetchResponds true geo => inr geo
  end.

(** One position event: [pos.coords], the clock reading of
    [requestRoute], what the requests started by the callback do, and the
    name of the error that a failing route request raises. *)
Record Event : Type := {
  latitude : R;
  longitude : R;
  now : Z;
  fetched : Fetched;
  settled : Settled;
  errorName : string
}.

(** [setStatus(s)] *)
Definition setStatus (s : string) (h : Hook) : Hook :=
  {| lastReqRef := lastReqRef h; status := s; route := route h |}.

(** [err.message || String(err)] for an error with this name and message. *)
Definition shown (name message : string) : string :=
  if String.eqb message "" then name else message.

Definition onPosition (throttleMs : Z) (shelters : option GeoJSON) (ev : Event) (w : Watch)
  : Watch :=
  let pos := Some (latitude ev, longitude ev) in
  let geo := match shelters with
             | Some g => inr (Some g)
             | None => fetchShelters (fetched ev)
             end in
  match geo with
  | inl text =>
      {| position := pos; nearest := nearest w;
         hook := setStatus ("error: " ++ text) (hook w) |}
  | inr geo =>
      let n := computeNearest (latitude ev) (longitude ev) geo in
      match n with
      | None => {| position := pos; nearest := n; hook := hook w |}
      | Some _ =>
          let '(r, h1) := requestRoute throttleMs (now ev) (settled ev) (hook w) in
          match r with
          | Thrown message =>
              {| position := pos; nearest := n;
                 hook := setStatus ("error: " ++ shown (errorName ev) message) h1 |}
          | _ => {| position := pos; nearest := n; hook := h1 |}
          end
      end
  end.

(** The callback on successive events. *)
Definition watch (throttleMs : Z) (shelters : option GeoJSON) (evs : list Event) (w : Watch)
  : Watch :=
  fold_left (fun w ev => onPosition throttleMs shelters ev w) evs w.

End Watch.

Section WatchFacts.
Import Frontend Watch.
Local Open Scope R_scope.

(** What one event may do to the route and to the time of the last
    request: leave both, or, for a request that the throttle lets through
    while a nearest shelter is known, store the time of the event and, if
    the request is fulfilled, its route. *)
Definition advanced (throttleMs : Z) (ev : Event) (w w' : Watch) : Prop :=
  (lastReqRef (hook w') = lastReqRef (hook w) /\ route (hook w') = route (hook w))
  \/ (lastReqRef (hook w') = now ev
      /\ (throttleMs <= now ev - lastReqRef (hook w))%Z
      /\ nearest w' <> None
      /\ (route (hook w') = route (hook w)
          \/ exists out, settled ev = Fulfilled out /\ route (hook w') = Some out)).

Lemma onPosition_step :
  forall throttleMs shelters ev w,
    let w' := onPosition throttleMs shelters ev w in
    position w' = Some (latitude ev, longitude ev)
    /\ advanced throttleMs ev w w'
    /\ (nearest w' = None ->
        lastReqRef (hook w') = lastReqRef (hook w) /\ route (hook w') = route (hook w)).
Proof.
  intros throttleMs shelters ev w. unfold onPosition.
  destruct (match shelters with
            | Some g => inr (Some g)
            | None => fetchShelters (fetched ev)
            end) as [text|geo].
  - cbn. split; [reflexivity|]. split; [left; split; reflexivity|auto].
  - destruct (computeNearest (latitude ev) (longitude ev) geo) as [b|] eqn:Hn.
    + unfold requestRoute.
      destruct (now ev - lastReqRef (hook w) <? throttleMs)%Z eqn:Hlt.
      * cbn. split; [reflexivity|]. split; [left; split; reflexivity|auto].
      * apply Z.ltb_ge in Hlt.
        destruct (settled ev) as [out|message] eqn:Hs; cbn;
          (split; [reflexivity|]); (split; [|discriminate]); right;
          (split; [reflexivity|]); (split; [exact Hlt|]); (split; [discriminate|]).
        -- right. exists out. split; [exact Hs|reflexivity].
        -- left. reflexivity.
    + cbn. split; [reflexivity|]. split; [left; split; reflexivity|auto].
Qed.

(** The callback keeps watching through every failure and never drops a
    route.  After an event the position is that of the event, whatever
    else happens; the route is the one held before or the route of a
    request fulfilled for this event, never none where there was one; and
    a request goes out only if a nearest shelter was found and the
    throttle allows it.  When the shelters cannot be loaded or there are
    none, no request goes out. *)
Theorem onPosition_keeps_the_route :
  forall throttleMs shelters ev w,
    let w' := onPosition throttleMs shelters ev w in
    position w' = Some (latitude ev, longitude ev)
    /\ advanced throttleMs ev w w'
    /\ (nearest w' = None ->
        lastReqRef (hook w') = lastReqRef (hook w) /\ route (hook w') = route (hook w)).
Proof. exact onPosition_step. Qed.


Definition firstFix : Event :=
  {| latitude := 12.9730; longitude := 77.5940; now := 5000%Z;
     fetched := FetchRejects "offline"; settled := Raised "Route fetch failed";
     errorName := "Error" |}.

Definition idle : Watch :=
  {| position := None; nearest := None; hook := initialHook |}.


(** Over any sequence of events the route is never lost: if the watch
    holds a route, it holds one after every further event. *)
Theorem watch_never_drops_the_route :
  forall throttleMs shelters evs w,
    route (hook w) <> None ->
    route (hook (watch throttleMs shelters evs w)) <> None.
Proof.
  intros throttleMs shelters evs. unfold watch.
  induction evs as [|ev evs IH]; intros w Hw; [exact Hw|].
  cbn [fold_left]. apply IH.
  destruct (onPosition_step throttleMs shelters ev w)
    as (_ & [[_ Hr]|(_ & _ & _ & [Hr|(out & _ & Hr)])] & _);
    rewrite Hr; [exact Hw | exact Hw | discriminate].
Qed.

Lemma watch_never_drops_the_route_witness :
  route (hook (watch 4000 None [firstFix; firstFix]
                 {| position := None; nearest := None;
                    hook := {| lastReqRef := 0; status := "route-ready";
                               route := Some someRoute |} |}))
  <> None.
Proof.
  apply (watch_never_drops_the_route 4000 None [firstFix; firstFix]). discriminate.
Defined.

End WatchFacts.

Section WatchWitness.
Import Frontend Watch.
Local Open Scope R_scope.

Lemma onPosition_keeps_the_route_witness :
  position (onPosition 4000 None firstFix idle) = Some (12.9730, 77.5940)
  /\ advanced 4000 firstFix idle (onPosition 4000 None firstFix idle)
  /\ (nearest (onPosition 4000 None firstFix idle) = None ->
      lastReqRef (hook (onPosition 4000 None firstFix idle)) = lastReqRef (hook idle)
      /\ route (hook (onPosition 4000 None firstFix idle)) = route (hook idle)).
Proof.
  apply (onPosition_keeps_the_route 4000 None firstFix idle).
Defined.

End WatchWitness.

(* ===================================================================== *)
(** * White space around the coordinates                                  *)
(* ===================================================================== *)

Section Padding.
Import JS Backend.

(** A string without a comma. *)
Definition commaFree (s : string) : bool :=
  forallb (fun c => negb (Ascii.eqb c ",")) (list_ascii_of_string s).

Lemma split_commaFree s : commaFree s = true -> split "," s = [s].
Proof.
  unfold commaFree. induction s as [|c s IH]; [reflexivity|].
  cbn [list_ascii_of_string forallb]. intros H. apply andb_prop in H as [Hc Hs].
  apply negb_true_iff in Hc. cbn [split]. rewrite Hc, (IH Hs). reflexivity.
Qed.

Lemma split_pair a b :
  commaFree a = true -> commaFree b = true -> split "," (a ++ "," ++ b) = [a; b].
Proof.
  intros Ha Hb. induction a as [|c a IH].
  - change (split "," ("" ++ "," ++ b)) with ("" :: split "," b).
    rewrite (split_commaFree _ Hb). reflexivity.
  - unfold commaFree in Ha. cbn [list_ascii_of_string forallb] in Ha.
    apply andb_prop in Ha as [Hc Ha]. apply negb_true_iff in Hc.
    change (split "," (String c a ++ "," ++ b))
      with (if Ascii.eqb c "," then "" :: split "," (a ++ "," ++ b)
            else match split "," (a ++ "," ++ b) with
                 | h :: t => String c h :: t
                 | [] => [String c ""]
                 end).
    rewrite Hc, (IH Ha). reflexivity.
Qed.

Lemma commaFree_app a b :
  commaFree a = true -> commaFree b = true -> commaFree (a ++ b) = true.
Proof.
  unfold commaFree. intros Ha Hb. induction a as [|c a IH]; [exact Hb|].
  cbn [list_ascii_of_string forallb] in *. apply andb_prop in Ha as [Hc Ha].
  change (list_ascii_of_string (String c a ++ b))
    with (c :: list_ascii_of_string (a ++ b)).
  cbn [forallb]. rewrite Hc, (IH Ha). reflexivity.
Qed.

Lemma blank_commaFree w : blank w = true -> commaFree w = true.
Proof.
  unfold blank, commaFree. induction w as [|c w IH]; [reflexivity|].
  cbn [list_ascii_of_string forallb]. intros H. apply andb_prop in H as [Hc Hw].
  rewrite (comma_not_white _ Hc), (IH Hw). reflexivity.
Qed.

Lemma trimStart_pad w x : blank w = true -> trimStart (w ++ x) = trimStart x.
Proof.
  unfold blank. induction w as [|c w IH]; [reflexivity|].
  cbn [list_ascii_of_string forallb]. intros H. apply andb_prop in H as [Hc Hw].
  change (trimStart (String c w ++ x))
    with (if isWhiteSpace c then trimStart (w ++ x) else String c (w ++ x)).
  rewrite Hc. apply IH. exact Hw.
Qed.

Lemma trimEnd_blank w : blank w = true -> trimEnd w = "".
Proof.
  unfold blank. induction w as [|c w IH]; [reflexivity|].
  cbn [list_ascii_of_string forallb]. intros H. apply andb_prop in H as [Hc Hw].
  cbn [trimEnd]. rewrite (IH Hw), Hc. reflexivity.
Qed.

Lemma trimEnd_pad x w : blank w = true -> trimEnd (x ++ w) = trimEnd x.
Proof.
  intros Hw. induction x as [|c x IH]; [apply trimEnd_blank; exact Hw|].
  change (trimEnd (String c x ++ w))
    with (match trimEnd (x ++ w) with
          | EmptyString => if isWhiteSpace c then EmptyString else String c EmptyString
          | r => String c r
          end).
  rewrite IH. reflexivity.
Qed.

Lemma trim_pad_end a w : blank w = true -> trim (a ++ w) = trim a.
Proof.
  intros Hw. unfold trim. induction a as [|c a IH].
  - change ("" ++ w) with w. rewrite (trimStart_blank _ Hw). reflexivity.
  - change (trimStart (String c a ++ w))
      with (if isWhiteSpace c then trimStart (a ++ w) else String c a ++ w).
    cbn [trimStart]. destruct (isWhiteSpace c); [exact IH|].
    apply trimEnd_pad. exact Hw.
Qed.

Lemma trim_pad w1 a w2 :
  blank w1 = true -> blank w2 = true -> trim (w1 ++ a ++ w2) = trim a.
Proof.
  intros H1 H2. unfold trim at 1. rewrite (trimStart_pad _ _ H1).
  apply (trim_pad_end a w2 H2).
Qed.

(** White space around either coordinate does not change the verdict of
    the validator: a pair is accepted with padding exactly when it is
    accepted without. *)
Theorem validator_ignores_padding :
  forall a b w1 w2 w3 w4,
    blank w1 = true -> blank w2 = true -> blank w3 = true -> blank w4 = true ->
    commaFree a = true -> commaFree b = true ->
    isValidLonLatPair (QString ((w1 ++ a ++ w2) ++ "," ++ (w3 ++ b ++ w4)))
    = isValidLonLatPair (QString (a ++ "," ++ b)).
Proof.
  intros a b w1 w2 w3 w4 H1 H2 H3 H4 Ha Hb. unfold isValidLonLatPair.
  assert (Hne : forall x y, String.eqb (x ++ "," ++ y) "" = false).
  { intros x y. destruct x; reflexivity. }
  rewrite !Hne.
  rewrite (split_pair a b Ha Hb).
  rewrite (split_pair (w1 ++ a ++ w2) (w3 ++ b ++ w4)).
  - cbn [map]. rewrite (trim_pad w1 a w2 H1 H2), (trim_pad w3 b w4 H3 H4). reflexivity.
  - repeat apply commaFree_app; auto using blank_commaFree.
  - repeat apply commaFree_app; auto using blank_commaFree.
Qed.

Lemma validator_ignores_padding_witness :
  isValidLonLatPair (QString ((" " ++ "77.5933" ++ "  ") ++ "," ++ ("" ++ "12.9721" ++ " ")))
  = isValidLonLatPair (QString ("77.5933" ++ "," ++ "12.9721")).
Proof.
  apply (validator_ignores_padding "77.5933" "12.9721" " " "  " "" " "); reflexivity.
Defined.

End Padding.

(* ===================================================================== *)
(** * One allowance for each client                                       *)
(* ===================================================================== *)

Section PerClient.
Import JS Backend.

Variable env : Env.
Variable ip : string.

(** The record of a client after one more of its route requests. *)
Definition nextWindow (now : Z) (o : option Window) : Window :=
  match o with
  | Some w =>
      if now <? resetTime w
      then {| totalHits := totalHits w + 1; resetTime := resetTime w |}
      else {| totalHits := 1; resetTime := now + windowMs |}
  | None => {| totalHits := 1; resetTime := now + windowMs |}
  end.

Lemma handle_hits_same now start end_ upstream done st :
  hits (snd (fst (handle env now (GET_route ip start end_ upstream done) st))) !! ip
  = Some (nextWindow now (hits st !! ip)).
Proof.
  unfold handle, routeLimiter, rateLimit, increment. cbv beta iota zeta.
  fold (nextWindow now (hits st !! ip)).
  destruct (max <? totalHits (nextWindow now (hits st !! ip))).
  - cbn [fst snd hits]. apply lookup_insert_eq.
  - destruct (route env now done start end_ upstream (routeCache st)) as [[res c] calls].
    cbn [fst snd hits]. apply lookup_insert_eq.
Qed.

(** The limiter keeps one allowance for each client: the record of a
    client after a run is the record it would have if only its own route
    requests had been served.  The requests of other clients, and the
    client's own requests to the other endpoints, do not count. *)
Theorem limiter_counts_each_client_alone :
  forall reqs st st',
    hits st !! ip = hits st' !! ip ->
    hits (stateAfter env reqs st) !! ip
    = hits (stateAfter env (List.filter (routeFrom ip) reqs) st') !! ip.
Proof.
  intros reqs. induction reqs as [|[now req] rest IH]; intros st st' H; [exact H|].
  cbn [List.filter]. destruct (routeFrom ip (now, req)) eqn:Hr.
  - destruct req as [| |reqBody|ip' start end_ upstream done]; try discriminate Hr.
    unfold routeFrom in Hr. cbn [snd] in Hr. apply String.eqb_eq in Hr. subst ip'.
    rewrite !stateAfter_cons. apply IH.
    rewrite !handle_hits_same, H. reflexivity.
  - rewrite stateAfter_cons. apply IH.
    rewrite (handle_hits_other env now req st ip Hr). exact H.
Qed.

End PerClient.

Section PerClientWitness.
Import JS Backend.

Definition otherClient : string := "198.51.100.9".

Lemma limiter_counts_each_client_alone_witness :
  hits (stateAfter envWithKey
          (burst 2 ++ [(7, GET_route otherClient (QString cityHall) (QString communityCenter)
                                     (Ok (JObj [])) 8);
                       (8, GET_shelters)] ++ burst 1)
          initialState) !! client
  = hits (stateAfter envWithKey
            (List.filter (routeFrom client)
               (burst 2 ++ [(7, GET_route otherClient (QString cityHall)
                                          (QString communityCenter) (Ok (JObj [])) 8);
                            (8, GET_shelters)] ++ burst 1))
            initialState) !! client.
Proof.
  apply (limiter_counts_each_client_alone envWithKey client). reflexivity.
Defined.

End PerClientWitness.
